(** * PhotoMaker prediction endpoint ([predict.py])

    A shallow embedding of the request handling of [Predictor.predict] and of
    the style helper [apply_style].  The pretrained models (tokenizer, face
    detector, generation pipeline, safety classifier) are external
    collaborators: they appear as parameters of the development, and every
    call to one of them is recorded in the trace of the world. *)

From Stdlib Require Import ZArith Lia.
From Stdlib Require Import Floats.PrimFloat Floats.SpecFloat Floats.FloatOps.
From stdpp Require Import base option list gmap strings pretty.

Local Open Scope Z_scope.

(** ** Python exceptions raised on the paths of [predict] *)

Inductive exn : Type :=
  | ValueError (msg : string)
  | KeyError (key : string)
  | IndexError
  | OverflowError
  | UnboundLocalError
  | FileExistsError
  | FileNotFoundError.

Definition is_ValueError (e : exn) : bool :=
  match e with ValueError _ => true | _ => false end.

(** A computation that returned (did not raise). *)
Definition is_inr {A B} (x : A + B) : bool :=
  match x with inr _ => true | inl _ => false end.

(** ** Python strings *)

Module PyStr.

(** [str.replace(old, new)] for a non-empty [old]: the scan goes left to
    right; where [old] starts, [new] is emitted and the match is skipped
    ([skip] counts the characters of the match still to drop). *)
Fixpoint replace_from (skip : nat) (old new s : string) : string :=
  match s with
  | EmptyString => EmptyString
  | String c s' =>
      match skip with
      | S k => replace_from k old new s'
      | O =>
          if String.prefix old s
          then new +:+ replace_from (String.length old - 1) old new s'
          else String c (replace_from 0 old new s')
      end
  end.

(** With an empty [old], Python puts [new] before every character and at the
    end. *)
Fixpoint interleave (new s : string) : string :=
  match s with
  | EmptyString => EmptyString
  | String c s' => String c (new +:+ interleave new s')
  end.

Definition replace (old new s : string) : string :=
  match old with
  | EmptyString => new +:+ interleave new s
  | String _ _ => replace_from 0 old new s
  end.

(** [sep.join(parts)] *)
Fixpoint join (sep : string) (parts : list string) : string :=
  match parts with
  | [] => EmptyString
  | [p] => p
  | p :: ps => p +:+ sep +:+ join sep ps
  end.

(** [s[n:]] *)
Fixpoint drop (n : nat) (s : string) : string :=
  match n, s with
  | O, _ => s
  | S _, EmptyString => EmptyString
  | S k, String _ s' => drop k s'
  end.

(** [s.split(old)] for a non-empty [old], by the same scan as
    [replace_from]: a match closes the current piece. *)
Fixpoint split_from (skip : nat) (old s : string) : list string :=
  match s with
  | EmptyString => [EmptyString]
  | String c s' =>
      match skip with
      | S k => split_from k old s'
      | O =>
          if String.prefix old s
          then EmptyString :: split_from (String.length old - 1) old s'
          else
            match split_from 0 old s' with
            | piece :: pieces => String c piece :: pieces
            | [] => [String c EmptyString]
            end
      end
  end.

Definition split (old s : string) : list string := split_from 0 old s.

(** [old in s] as a proposition. *)
Definition occurs (old s : string) : Prop :=
  exists u v, s = u +:+ old +:+ v.

(** Truthiness of a string: non-empty. *)
Definition truthy (s : string) : bool :=
  match s with EmptyString => false | String _ _ => true end.

(** No proper non-empty suffix of [old] is also a prefix of it: two
    occurrences of [old] cannot overlap. *)
Definition border_free (old : string) : Prop :=
  forall u v w, old = u +:+ v -> old = v +:+ w -> u = "" \/ v = "".

(** All the ways to cut a string in two. *)
Fixpoint cuts (s : string) : list (string * string) :=
  ("", s) ::
  match s with
  | EmptyString => []
  | String c s' => (fun uv => (String c (fst uv), snd uv)) <$> cuts s'
  end.

(** The cut [uv] of [old] is not a border: one side is empty, or the right
    side is no prefix of [old]. *)
Definition no_border_at (old : string) (uv : string * string) : bool :=
  match fst uv, snd uv with
  | EmptyString, _ => true
  | _, EmptyString => true
  | _, v => negb (String.prefix v old)
  end.

(** [result] is [template] with every occurrence of [old] replaced by [new]:
    the template is pieces without [old] joined by [old], and the result is
    the same pieces joined by [new]. *)
Definition every_occurrence_replaced (old new template result : string) : Prop :=
  exists pieces,
    Forall (fun piece => ~ occurs old piece) pieces /\
    template = join old pieces /\
    result = join new pieces.

End PyStr.

(** ** Python lists of token ids *)

Module PyList.

(** [x in l] *)
Definition contains (x : Z) (l : list Z) : bool := existsb (Z.eqb x) l.

(** [l.count(x)] *)
Fixpoint count (x : Z) (l : list Z) : Z :=
  match l with
  | [] => 0
  | y :: l' => (if Z.eqb y x then 1 else 0) + count x l'
  end.

End PyList.

(** ** Python floats (IEEE binary64) *)

Module PyFloat.

(** [float(n)] for an [int]: round to nearest even; an [int] beyond the range
    of binary64 raises [OverflowError]. *)
Definition of_int (n : Z) : exn + float :=
  let sf :=
    match n with
    | Z0 => S754_zero false
    | Zpos p => binary_normalize prec emax (Zpos p) 0 false
    | Zneg p => SFopp (binary_normalize prec emax (Zpos p) 0 false)
    end in
  match sf with
  | S754_infinity _ | S754_nan => inl OverflowError
  | _ => inr (SF2Prim sf)
  end.

(** [int(x)] for a [float]: truncation towards zero; [nan] raises
    [ValueError] and an infinity raises [OverflowError]. *)
Definition to_int (x : float) : exn + Z :=
  match Prim2SF x with
  | S754_zero _ => inr 0
  | S754_finite s m e =>
      let a :=
        match e with
        | Z0 => Zpos m
        | Zpos p => Zpos m * 2 ^ Zpos p
        | Zneg p => Zpos m / 2 ^ Zpos p
        end in
      inr (if s then - a else a)
  | S754_infinity _ => inl OverflowError
  | S754_nan => inl (ValueError "cannot convert float NaN to integer")
  end.

(** [x / n] and [x * n] with an [int] right operand, which Python converts
    to [float] first. *)
Definition div_int (x : float) (n : Z) : exn + float :=
  match of_int n with
  | inl e => inl e
  | inr y => inr (PrimFloat.div x y)
  end.

Definition mul_int (x : float) (n : Z) : exn + float :=
  match of_int n with
  | inl e => inl e
  | inr y => inr (PrimFloat.mul x y)
  end.

End PyFloat.

(** ** Module-level constants *)

Definition MAX_SEED : Z := 2147483647.
Definition DEFAULT_STYLE_NAME : string := "Photographic (Default)".
Definition trigger_word : string := "img".
Definition placeholder : string := "{prompt}".

Definition Path : Type := string.

(** [Path('outputs')] and [output_folder / f"image_{i}.png"]: a file of the
    output folder is identified by its name inside the folder. *)
Definition output_folder : Path := "outputs".
Definition image_name (i : nat) : string := "image_" +:+ pretty i +:+ ".png".
Definition output_path (i : nat) : Path := output_folder +:+ "/" +:+ image_name i.

(** ** [setup]: the device and the tensor type *)

Module Setup.

(** [torch.float16] and [torch.bfloat16] *)
Inductive dtype : Type := float16 | bfloat16.

(** The device [setup] settles on.  A probe of the platform returns a
    [bool] or raises; the bare [except] turns an exception of either probe
    into ["cpu"], and [and] asks for [mps] only on ["darwin"]. *)
Definition select_device {E : Type} (cuda_is_available : E + bool)
    (platform : string) (mps_is_available : E + bool) : string :=
  match cuda_is_available with
  | inl _ => "cpu"
  | inr true => "cuda"
  | inr false =>
      if bool_decide (platform = "darwin")
      then
        match mps_is_available with
        | inl _ => "cpu"
        | inr true => "mps"
        | inr false => "cpu"
        end
      else "cpu"
  end.

(** [torch_dtype]: the probe for bfloat16 is outside the [try] and is made
    on ["cuda"] only. *)
Definition select_dtype {E : Type} (device : string)
    (is_bf16_supported : E + bool) : E + dtype :=
  if bool_decide (device = "cuda")
  then
    match is_bf16_supported with
    | inl e => inl e
    | inr true => inr bfloat16
    | inr false => inr float16
    end
  else inr float16.

End Setup.

(** ** [apply_style] *)

(** [styles.get(style_name, styles[DEFAULT_STYLE_NAME])]: the default entry is
    looked up before [get] is called, so its absence is a [KeyError] whatever
    [style_name] is. *)
Definition apply_style (styles : gmap string (string * string))
    (style_name positive negative : string) : exn + (string * string) :=
  match styles !! DEFAULT_STYLE_NAME with
  | None => inl (KeyError DEFAULT_STYLE_NAME)
  | Some dflt =>
      let '(p, n) := default dflt (styles !! style_name) in
      inr (PyStr.replace placeholder positive p, n +:+ " " +:+ negative)
  end.

(** What the claim about [apply_style] asks of its outcome [out] for the
    template pair [template]: the positive template with every placeholder
    replaced by the prompt (and nothing else qualifies as such), and the
    negative template, a space and the negative prompt. *)
Definition styled (template : string * string) (positive negative : string)
    (out : exn + (string * string)) : Prop :=
  exists result,
    out = inr (result, snd template +:+ " " +:+ negative) /\
    PyStr.every_occurrence_replaced placeholder positive (fst template) result /\
    forall other,
      PyStr.every_occurrence_replaced placeholder positive (fst template) other ->
      other = result.

(** ** Merge step *)

(** [int(float(style_strength_ratio) / 100 * num_steps)], then the cap. *)
Definition merge_fraction (style_strength_ratio : float) (num_steps : Z) : exn + Z :=
  match PyFloat.div_int style_strength_ratio 100 with
  | inl e => inl e
  | inr q =>
      match PyFloat.mul_int q num_steps with
      | inl e => inl e
      | inr x => PyFloat.to_int x
      end
  end.

Definition start_merge_step (style_strength_ratio : float) (num_steps : Z) : exn + Z :=
  match merge_fraction style_strength_ratio num_steps with
  | inl e => inl e
  | inr s => inr (if 30 <? s then 30 else s)
  end.

(** The merge step that the fraction gives in exact arithmetic, with the
    cap. *)
Definition exact_merge_step (ratio num_steps : Z) : Z :=
  Z.min 30 (ratio * num_steps / 100).

(** ** The request *)

(** The parameters of [predict].  An absent image or seed is [None]. *)
Record Request : Type := mkRequest {
  input_image : option Path;
  input_image2 : option Path;
  input_image3 : option Path;
  input_image4 : option Path;
  aspect_ratio_name : string;
  prompt : string;
  style_name : string;
  negative_prompt : string;
  num_steps : Z;
  style_strength_ratio : float;
  num_outputs : Z;
  guidance_scale : float;
  seed : option Z;
  disable_safety_checker : bool
}.

(** The defaults of the [Input] declarations.  [input_image] has none (it is
    required) and [aspect_ratio_name] defaults to the first key of the
    aspect-ratio table, so both are arguments here. *)
Definition default_request (image : Path) (first_aspect_ratio : string) : Request :=
  {| input_image := Some image;
     input_image2 := None;
     input_image3 := None;
     input_image4 := None;
     aspect_ratio_name := first_aspect_ratio;
     prompt := "A photo of a person img";
     style_name := DEFAULT_STYLE_NAME;
     negative_prompt := "nsfw, lowres, bad anatomy, bad hands, text, error, missing fingers, extra digit, fewer digits, cropped, worst quality, low quality, normal quality, jpeg artifacts, signature, watermark, username, blurry";
     num_steps := 20;
     style_strength_ratio := 20%float;
     num_outputs := 1;
     guidance_scale := 5%float;
     seed := None;
     disable_safety_checker := false |}.

Definition float_between (lo hi x : float) : bool :=
  PrimFloat.leb lo x && PrimFloat.leb x hi.

(** What the [Input] declarations let through: the required image is there,
    the choices are keys of their tables and the numbers are within [ge]
    and [le]. *)
Definition valid_request (styles : gmap string (string * string))
    (aspect_ratios : gmap string (Z * Z)) (r : Request) : bool :=
  bool_decide (is_Some (input_image r))
  && bool_decide (is_Some (aspect_ratios !! aspect_ratio_name r))
  && bool_decide (is_Some (styles !! style_name r))
  && (1 <=? num_steps r) && (num_steps r <=? 100)
  && float_between 15 50 (style_strength_ratio r)
  && (1 <=? num_outputs r) && (num_outputs r <=? 4)
  && float_between 1 10 (guidance_scale r)
  && match seed r with
     | None => true
     | Some s => (0 <=? s) && (s <=? MAX_SEED)
     end.

Section World.

Variable Image : Type.
Variable Embedding : Type.

(** The arguments [predict] passes to the generation pipeline ([image=None]
    and the two adapter factors, which are constants, are left out). *)
Record PipeArgs : Type := mkPipeArgs {
  pa_prompt : string;
  pa_width : Z;
  pa_height : Z;
  pa_input_id_images : list Image;
  pa_negative_prompt : string;
  pa_num_images_per_prompt : Z;
  pa_num_inference_steps : Z;
  pa_start_merge_step : Z;
  pa_generator_seed : Z;
  pa_guidance_scale : float;
  pa_id_embeds : list Embedding
}.

(** Calls that leave the process, in the order they are made. *)
Inductive event : Type :=
  | Rmtree
  | Makedirs
  | LoadImage (p : Path)
  | AnalyzeFaces (img : Image)
  | RunPipe (args : PipeArgs)
  | SafetyCheck (images : list Image)
  | Save (name : string) (img : Image).

(** [outputs] is [None] while the folder does not exist, else its files by
    name; [entropy] is what the next [random.randint] draws from. *)
Record World : Type := mkWorld {
  outputs : option (gmap string Image);
  entropy : Z;
  trace : list event
}.

(** State and exception monad: an exception keeps the world it was raised
    in. *)
Definition M (A : Type) : Type := World -> (exn + A) * World.

#[global] Instance M_ret : MRet M := fun A a w => (inr a, w).
#[global] Instance M_bind : MBind M := fun A B f m w =>
  match m w with
  | (inl e, w') => (inl e, w')
  | (inr a, w') => f a w'
  end.

Definition raise {A} (e : exn) : M A := fun w => (inl e, w).

Definition lift {A} (x : exn + A) : M A := fun w => (x, w).

Definition emit (ev : event) : M unit := fun w =>
  (inr tt, {| outputs := outputs w; entropy := entropy w; trace := trace w ++ [ev] |}).

Definition set_outputs (o : option (gmap string Image)) : M unit := fun w =>
  (inr tt, {| outputs := o; entropy := entropy w; trace := trace w |}).

Definition get_outputs : M (option (gmap string Image)) := fun w => (inr (outputs w), w).

(** [output_folder.exists()] *)
Definition folder_exists : M bool :=
  o ← get_outputs;
  mret match o with Some _ => true | None => false end.

(** [shutil.rmtree(output_folder)] *)
Definition rmtree : M unit :=
  emit Rmtree;;
  o ← get_outputs;
  match o with
  | None => raise FileNotFoundError
  | Some _ => set_outputs None
  end.

(** [os.makedirs(str(output_folder), exist_ok=False)] *)
Definition makedirs : M unit :=
  emit Makedirs;;
  o ← get_outputs;
  match o with
  | Some _ => raise FileExistsError
  | None => set_outputs (Some ∅)
  end.

(** [random.randint(a, b)] *)
Definition randint (a b : Z) : M Z := fun w =>
  (inr (a + entropy w mod (b - a + 1)),
   {| outputs := outputs w; entropy := entropy w / (b - a + 1); trace := trace w |}).

(** [image.save(output_path)] *)
Definition save (name : string) (img : Image) : M unit :=
  emit (Save name img);;
  o ← get_outputs;
  match o with
  | None => raise FileNotFoundError
  | Some files => set_outputs (Some (<[name := img]> files))
  end.

(** [for i, x in enumerate(l, start=i): acc = body i x acc] *)
Fixpoint for_enumerate {A B : Type} (body : nat -> A -> B -> M B)
    (i : nat) (l : list A) (acc : B) : M B :=
  match l with
  | [] => mret acc
  | x :: l' => acc' ← body i x acc; for_enumerate body (S i) l' acc'
  end.

Definition for_each {A B : Type} (body : A -> B -> M B) (l : list A) (acc : B) : M B :=
  for_enumerate (fun _ => body) 0%nat l acc.

End World.

Arguments Rmtree {Image Embedding}.
Arguments Makedirs {Image Embedding}.
Arguments LoadImage {Image Embedding} p.
Arguments AnalyzeFaces {Image Embedding} img.
Arguments RunPipe {Image Embedding} args.
Arguments SafetyCheck {Image Embedding} images.
Arguments Save {Image Embedding} name img.
Arguments mkWorld {Image Embedding} outputs entropy trace.
Arguments outputs {Image Embedding} w.
Arguments entropy {Image Embedding} w.
Arguments trace {Image Embedding} w.
Arguments mkPipeArgs {Image Embedding}.
Arguments pa_prompt {Image Embedding} p.
Arguments pa_width {Image Embedding} p.
Arguments pa_height {Image Embedding} p.
Arguments pa_input_id_images {Image Embedding} p.
Arguments pa_negative_prompt {Image Embedding} p.
Arguments pa_num_images_per_prompt {Image Embedding} p.
Arguments pa_num_inference_steps {Image Embedding} p.
Arguments pa_start_merge_step {Image Embedding} p.
Arguments pa_generator_seed {Image Embedding} p.
Arguments pa_guidance_scale {Image Embedding} p.
Arguments pa_id_embeds {Image Embedding} p.
Arguments raise {Image Embedding A} e w.
Arguments lift {Image Embedding A} x w.
Arguments emit {Image Embedding} ev w.
Arguments set_outputs {Image Embedding} o w.
Arguments get_outputs {Image Embedding} w.
Arguments folder_exists {Image Embedding} w.
Arguments rmtree {Image Embedding} w.
Arguments makedirs {Image Embedding} w.
Arguments randint {Image Embedding} a b w.
Arguments save {Image Embedding} name img w.
Arguments for_enumerate {Image Embedding A B} body i l acc w.
Arguments for_each {Image Embedding A B} body l acc w.

(** ** The predictor *)

(** What [setup] leaves in [self] and what the module imports: the tokenizer
    of the pipeline, the tables of [gradio_demo], [load_image],
    [analyze_faces] with the face detector (the faces found in an image,
    each reduced to its ['embedding']), the pipeline ([self.pipe(...).images])
    and the safety classifier behind [run_safety_checker]: the flags
    [has_nsfw_concept] it gives and the images it hands back.  These calls
    are taken to return: an exception raised inside one of them is outside
    this model. *)
Class Predictor (Image Embedding : Type) : Type := {
  encode : string -> list Z;
  convert_tokens_to_ids : string -> Z;
  styles : gmap string (string * string);
  aspect_ratios : gmap string (Z * Z);
  load_image : Path -> Image;
  analyze_faces : Image -> list Embedding;
  pipe : PipeArgs Image Embedding -> list Image;
  safety_checker : list Image -> list bool;
  safety_checker_images : list Image -> list Image
}.

Definition missing_trigger_msg : string :=
  "Cannot find the trigger word '" +:+ trigger_word +:+ "' in text prompt!".
Definition multiple_trigger_msg : string :=
  "Cannot use multiple trigger words '" +:+ trigger_word +:+ "' in text prompt!".
Definition negative_trigger_msg : string :=
  "Cannot use trigger word '" +:+ trigger_word +:+ "' in negative prompt!".
Definition no_face_msg : string :=
  "No face detected, please update the input face image(s)".

Section Predict.

Context {Image Embedding : Type} {self : Predictor Image Embedding}.

#[local] Abbreviation M := (M Image Embedding).

(** Remove old outputs. *)
Definition prepare_output_folder : M unit :=
  ex ← folder_exists;
  (if ex : bool then rmtree else mret tt);;
  makedirs.

(** Randomize the seed if necessary. *)
Definition choose_seed (s : option Z) : M Z :=
  match s with
  | None => randint 0 MAX_SEED
  | Some s => mret s
  end.

Definition image_token_id : Z := convert_tokens_to_ids trigger_word.

(** Check the prompt for the trigger word. *)
Definition check_prompt (prompt : string) : exn + unit :=
  let input_ids := encode prompt in
  if negb (PyList.contains image_token_id input_ids)
  then inl (ValueError missing_trigger_msg)
  else if 1 <? PyList.count image_token_id input_ids
  then inl (ValueError multiple_trigger_msg)
  else inr tt.

(** Check the negative prompt for the trigger word. *)
Definition check_negative_prompt (negative_prompt : string) : exn + unit :=
  if PyStr.truthy negative_prompt
  then
    let negative_prompt_ids := encode negative_prompt in
    if PyList.contains image_token_id negative_prompt_ids
    then inl (ValueError negative_trigger_msg)
    else inr tt
  else inr tt.

(** [aspect_ratios[aspect_ratio_name]] *)
Definition output_dimensions (name : string) : exn + (Z * Z) :=
  match aspect_ratios !! name with
  | None => inl (KeyError name)
  | Some wh => inr wh
  end.

(** Load the input images: a [Path] is always truthy, so [if maybe_image]
    tests for [None].  First the body of the loop, then the loop. *)
Definition load_body (maybe_image : option Path) (input_id_images : list Image) :
    M (list Image) :=
  match maybe_image with
  | Some p => emit (LoadImage p);; mret (input_id_images ++ [load_image p])
  | None => mret input_id_images
  end.

Definition load_input_images (r : Request) : M (list Image) :=
  for_each load_body
    [input_image r; input_image2 r; input_image3 r; input_image4 r] [].

(** The embedding loop: [faces[0]['embedding']] of every image on which the
    detector finds a face. *)
Definition embed_body (img : Image) (id_embed_list : list Embedding) :
    M (list Embedding) :=
  emit (AnalyzeFaces img);;
  let faces := analyze_faces img in
  if (0 <? length faces)%nat
  then
    match faces !! 0%nat with
    | Some face => mret (id_embed_list ++ [face])
    | None => raise IndexError
    end
  else mret id_embed_list.

Definition collect_id_embeds (input_id_images : list Image) : M (list Embedding) :=
  for_each embed_body input_id_images [].

Definition run_pipe (args : PipeArgs Image Embedding) : M (list Image) :=
  emit (RunPipe args);; mret (pipe args).

(** [run_safety_checker]: the images and the flags of the classifier. *)
Definition run_safety_checker (images : list Image) : M (list Image * list bool) :=
  emit (SafetyCheck images);;
  mret (safety_checker_images images, safety_checker images).

(** Save results to file.  [has_nsfw_content] is bound only when the safety
    checker ran; a flagged image is skipped ([continue]). *)
Definition save_body (disable_safety_checker : bool)
    (has_nsfw_content : option (list bool)) (i : nat) (image : Image)
    (output_paths : list Path) : M (list Path) :=
  flagged ←
    (if negb disable_safety_checker
     then
       match has_nsfw_content with
       | None => raise UnboundLocalError
       | Some flags =>
           match flags !! i with
           | None => raise IndexError
           | Some b => mret b
           end
       end
     else mret false);
  if flagged : bool
  then mret output_paths
  else save (image_name i) image;; mret (output_paths ++ [output_path i]).

Definition save_outputs (disable_safety_checker : bool)
    (has_nsfw_content : option (list bool)) (images : list Image) : M (list Path) :=
  for_enumerate (save_body disable_safety_checker has_nsfw_content)
    0%nat images [].

(** From the embedding loop to the end. *)
Definition generate (r : Request) (seed output_w output_h : Z)
    (prompt negative_prompt : string) (input_id_images : list Image) : M (list Path) :=
  id_embed_list ← collect_id_embeds input_id_images;
  (if (length id_embed_list =? 0)%nat
   then raise (ValueError no_face_msg) else mret tt);;
  let id_embeds := id_embed_list in
  start_merge_step ← lift (start_merge_step (style_strength_ratio r) (num_steps r));
  images ← run_pipe
    {| pa_prompt := prompt;
       pa_width := output_w;
       pa_height := output_h;
       pa_input_id_images := input_id_images;
       pa_negative_prompt := negative_prompt;
       pa_num_images_per_prompt := num_outputs r;
       pa_num_inference_steps := num_steps r;
       pa_start_merge_step := start_merge_step;
       pa_generator_seed := seed;
       pa_guidance_scale := guidance_scale r;
       pa_id_embeds := id_embeds |};
  has_nsfw_content ←
    (if negb (disable_safety_checker r)
     then res ← run_safety_checker images; mret (Some (snd res))
     else mret None);
  save_outputs (disable_safety_checker r) has_nsfw_content images.

(** From the negative-prompt check on. *)
Definition after_prompt_check (r : Request) (seed : Z) : M (list Path) :=
  lift (check_negative_prompt (negative_prompt r));;
  dims ← lift (output_dimensions (aspect_ratio_name r));
  styled ← lift (apply_style styles (style_name r) (prompt r) (negative_prompt r));
  input_id_images ← load_input_images r;
  generate r seed (fst dims) (snd dims) (fst styled) (snd styled) input_id_images.

Definition predict (r : Request) : M (list Path) :=
  prepare_output_folder;;
  seed ← choose_seed (seed r);
  lift (check_prompt (prompt r));;
  after_prompt_check r seed.

End Predict.

Arguments prepare_output_folder {Image Embedding} w.
Arguments choose_seed {Image Embedding} s w.
Arguments load_body {Image Embedding self} maybe_image input_id_images w.
Arguments embed_body {Image Embedding self} img id_embed_list w.
Arguments save_body {Image Embedding} disable_safety_checker
  has_nsfw_content i image output_paths w.
Arguments load_input_images {Image Embedding self} r w.
Arguments collect_id_embeds {Image Embedding self} input_id_images w.
Arguments run_pipe {Image Embedding self} args w.
Arguments run_safety_checker {Image Embedding self} images w.
Arguments save_outputs {Image Embedding} disable_safety_checker
  has_nsfw_content images w.
Arguments generate {Image Embedding self} r seed output_w output_h prompt
  negative_prompt input_id_images w.
Arguments after_prompt_check {Image Embedding self} r seed w.
Arguments predict {Image Embedding self} r w.

(** ** Vocabulary for the outcome of a request *)

Section Outcome.

Context {Image Embedding : Type} {self : Predictor Image Embedding}.

Definition add_trace (w : World Image Embedding)
    (events : list (event Image Embedding)) : World Image Embedding :=
  {| outputs := outputs w; entropy := entropy w; trace := trace w ++ events |}.

(** The calls that clear the output folder: [rmtree] only when the folder
    exists. *)
Definition folder_events (w : World Image Embedding) : list (event Image Embedding) :=
  match outputs w with
  | Some _ => [Rmtree]
  | None => []
  end ++ [Makedirs].

(** The world once the output folder has been cleared. *)
Definition prepared (w : World Image Embedding) : World Image Embedding :=
  {| outputs := Some ∅; entropy := entropy w; trace := trace w ++ folder_events w |}.

(** The seed in use and the world after choosing it. *)
Definition chosen_seed (s : option Z) (w : World Image Embedding) : Z :=
  match s with
  | Some s => s
  | None => entropy w mod (MAX_SEED + 1)
  end.

Definition seeded (s : option Z) (w : World Image Embedding) : World Image Embedding :=
  match s with
  | Some _ => w
  | None =>
      {| outputs := outputs w; entropy := entropy w / (MAX_SEED + 1);
         trace := trace w |}
  end.

(** The world in which the prompts are checked. *)
Definition checked_in (r : Request) (w : World Image Embedding) : World Image Embedding :=
  seeded (seed r) (prepared w).

(** The image inputs that are not [None], in the order of the parameters. *)
Definition supplied (r : Request) : list Path :=
  omap id [input_image r; input_image2 r; input_image3 r; input_image4 r].

(** The embedding of the first face of every image that has a face. *)
Definition first_face_embeds (images : list Image) : list Embedding :=
  omap (fun img => head (analyze_faces img)) images.

(** The total number of faces detected on the images. *)
Definition detected_faces (images : list Image) : nat :=
  sum_list (length <$> (analyze_faces <$> images)).

(** Image [i] is not flagged; without flags (checker disabled) every image
    passes. *)
Definition passes (has_nsfw_content : option (list bool)) (i : nat) : bool :=
  match has_nsfw_content with
  | None => true
  | Some flags =>
      match flags !! i with
      | Some b => negb b
      | None => false
      end
  end.

(** The generated images with their indices, counted from [i]. *)
Definition enumerate_from (i : nat) (images : list Image) : list (nat * Image) :=
  zip (seq i (length images)) images.

(** Those of them that pass. *)
Definition kept_from (has_nsfw_content : option (list bool)) (i : nat)
    (images : list Image) : list (nat * Image) :=
  filter (fun p => passes has_nsfw_content (fst p) = true) (enumerate_from i images).

Definition kept (has_nsfw_content : option (list bool)) (images : list Image) :
    list (nat * Image) :=
  kept_from has_nsfw_content 0 images.

(** Writing images into the output folder, and the calls that do it. *)
Definition save_all (files : gmap string Image) (l : list (nat * Image)) :
    gmap string Image :=
  foldl (fun m p => <[image_name (fst p) := snd p]> m) files l.

Definition save_events (l : list (nat * Image)) : list (event Image Embedding) :=
  (fun p => Save (image_name (fst p)) (snd p)) <$> l.

(** The events of a trace that are calls of the face detector, of the
    pipeline or of the safety classifier. *)
Definition is_model_call (ev : event Image Embedding) : bool :=
  match ev with
  | AnalyzeFaces _ | RunPipe _ | SafetyCheck _ => true
  | _ => false
  end.

Definition is_safety_check (ev : event Image Embedding) : bool :=
  match ev with
  | SafetyCheck _ => true
  | _ => false
  end.

(** The calls of the generation pipeline. *)
Definition is_run_pipe (ev : event Image Embedding) : bool :=
  match ev with
  | RunPipe _ => true
  | _ => false
  end.

(** The calls that delete or create the output folder. *)
Definition is_folder_call (ev : event Image Embedding) : bool :=
  match ev with
  | Rmtree | Makedirs => true
  | _ => false
  end.

(** The images loaded for the request and the identity batch built from
    them. *)
Definition loaded (r : Request) : list Image := load_image <$> supplied r.

Definition id_batch (r : Request) : list Embedding :=
  first_face_embeds (loaded r).

(** The checks and lookups made before the images are loaded pass, with
    output size [dims] and styled prompts [styled]. *)
Definition checks_pass (r : Request) (dims : Z * Z) (styled : string * string) :
    Prop :=
  check_prompt (prompt r) = inr tt /\
  check_negative_prompt (negative_prompt r) = inr tt /\
  output_dimensions (aspect_ratio_name r) = inr dims /\
  apply_style styles (style_name r) (prompt r) (negative_prompt r) = inr styled.

(** Moreover some image has a face and the merge step is [merge]: the
    request reaches the pipeline. *)
Definition accepted (r : Request) (dims : Z * Z) (styled : string * string)
    (merge : Z) : Prop :=
  checks_pass r dims styled /\
  id_batch r <> [] /\
  start_merge_step (style_strength_ratio r) (num_steps r) = inr merge.

(** The images on which the detector finds a face. *)
Definition with_face (images : list Image) : list Image :=
  filter (fun img => (0 < length (analyze_faces img))%nat) images.

(** The indices, in generation order, of the images that are not flagged. *)
Definition unflagged (flags : list bool) (n : nat) : list nat :=
  filter (fun i => flags !! i = Some false) (seq 0 n).

(** The pipeline arguments built by [generate]. *)
Definition generate_args (r : Request) (seed output_w output_h : Z)
    (prompt negative_prompt : string) (images : list Image) (merge : Z) :
    PipeArgs Image Embedding :=
  {| pa_prompt := prompt;
     pa_width := output_w;
     pa_height := output_h;
     pa_input_id_images := images;
     pa_negative_prompt := negative_prompt;
     pa_num_images_per_prompt := num_outputs r;
     pa_num_inference_steps := num_steps r;
     pa_start_merge_step := merge;
     pa_generator_seed := seed;
     pa_guidance_scale := guidance_scale r;
     pa_id_embeds := first_face_embeds images |}.

(** The arguments of the pipeline call of an accepted request. *)
Definition call_args (r : Request) (w : World Image Embedding) (dims : Z * Z)
    (styled : string * string) (merge : Z) : PipeArgs Image Embedding :=
  generate_args r (chosen_seed (seed r) (prepared w)) (fst dims) (snd dims)
    (fst styled) (snd styled) (loaded r) merge.

(** The calls made up to the point where the face embeddings are known, and
    up to the point where the images are generated. *)
Definition embedding_events (r : Request) : list (event Image Embedding) :=
  (LoadImage <$> supplied r) ++ (AnalyzeFaces <$> loaded r).

Definition generation_events (r : Request) (args : PipeArgs Image Embedding) :
    list (event Image Embedding) :=
  embedding_events r ++ [RunPipe args].

(** The flags that decide which images are saved: none when the checker is
    disabled. *)
Definition flags_for (r : Request) (images : list Image) : option (list bool) :=
  if disable_safety_checker r then None else Some (safety_checker images).

Definition checker_events (r : Request) (images : list Image) :
    list (event Image Embedding) :=
  if disable_safety_checker r then [] else [SafetyCheck images].

End Outcome.

Arguments add_trace {Image Embedding} w events.
Arguments folder_events {Image Embedding} w.
Arguments prepared {Image Embedding} w.
Arguments chosen_seed {Image Embedding} s w.
Arguments seeded {Image Embedding} s w.
Arguments checked_in {Image Embedding} r w.
Arguments enumerate_from {Image} i images.
Arguments kept_from {Image} has_nsfw_content i images.
Arguments kept {Image} has_nsfw_content images.
Arguments save_all {Image} files l.
Arguments save_events {Image Embedding} l.
Arguments is_model_call {Image Embedding} ev.
Arguments is_safety_check {Image Embedding} ev.
Arguments is_folder_call {Image Embedding} ev.
Arguments is_run_pipe {Image Embedding} ev.

(** ** A small concrete instance

    Pictures are given by the list of the faces on them, a face by a number;
    the tokenizer splits on blanks and knows one word.  The instance is used
    to run [predict] on concrete requests. *)

Module Demo.

Definition Image : Type := list nat.
Definition Embedding : Type := nat.

Definition token_id (token : string) : Z :=
  if bool_decide (token = "img") then 2221 else 0.

Definition tokenize (text : string) : list Z :=
  49406 :: (token_id <$> String.words text) ++ [49407].

Definition style_table : gmap string (string * string) :=
  <[ "Photographic (Default)" :=
       ("cinematic photo {prompt} . 35mm photograph", "drawing, painting") ]>
  (<[ "Echo" := ("{prompt}, again {prompt}", "quiet") ]> ∅).

Definition ratio_table : gmap string (Z * Z) :=
  <[ "1:1" := (1024, 1024) ]> (<[ "16:9" := (1344, 768) ]> ∅).

Definition picture (p : Path) : Image :=
  if bool_decide (p = "alice.png") then [5%nat]
  else if bool_decide (p = "couple.png") then [1%nat; 2%nat]
  else [].

Definition faces (img : Image) : list Embedding := img.

(** The [k]-th generated picture shows face [k]. *)
Definition generator (args : PipeArgs Image Embedding) : list Image :=
  (fun k => [k]) <$> seq 0 (Z.to_nat (pa_num_images_per_prompt args)).

(** Pictures of face [1] are flagged. *)
Definition classifier (images : list Image) : list bool :=
  (fun img => bool_decide (img = [1%nat])) <$> images.

(** The classifier hands back its input with the flagged pictures
    emptied. *)
Definition blackened (images : list Image) : list Image :=
  (fun img => if bool_decide (img = [1%nat]) then [] else img) <$> images.

#[export] Instance predictor : Predictor Image Embedding := {|
  encode := tokenize;
  convert_tokens_to_ids := token_id;
  styles := style_table;
  aspect_ratios := ratio_table;
  load_image := picture;
  analyze_faces := faces;
  pipe := generator;
  safety_checker := classifier;
  safety_checker_images := blackened
|}.

Definition request (image : Path) : Request :=
  default_request image "1:1".

(** Three outputs with the checker on, from two pictures. *)
Definition request3 : Request :=
  {| input_image := Some "couple.png";
     input_image2 := None;
     input_image3 := Some "alice.png";
     input_image4 := None;
     aspect_ratio_name := "1:1";
     prompt := "a man img";
     style_name := "Echo";
     negative_prompt := "";
     num_steps := 100;
     style_strength_ratio := 50%float;
     num_outputs := 3;
     guidance_scale := 5%float;
     seed := Some 7;
     disable_safety_checker := false |}.

(** A request with one picture and the given choices. *)
Definition request_with (image : Path) (aspect prompt negative : string)
    (outputs : Z) (disable : bool) : Request :=
  {| input_image := Some image;
     input_image2 := None;
     input_image3 := None;
     input_image4 := None;
     aspect_ratio_name := aspect;
     prompt := prompt;
     style_name := "Echo";
     negative_prompt := negative;
     num_steps := 20;
     style_strength_ratio := 20%float;
     num_outputs := outputs;
     guidance_scale := 5%float;
     seed := Some 7;
     disable_safety_checker := disable |}.

(** Requests that are refused, one that is accepted with the checker off,
    and what [request3] is accepted with. *)
Definition unknown_ratio : Request :=
  request_with "alice.png" "4:3" "a man img" "" 1 false.

Definition faceless : Request :=
  request_with "nobody.png" "1:1" "a man img" "" 1 false.

Definition no_trigger : Request :=
  request_with "alice.png" "1:1" "a man" "" 1 false.

Definition unchecked : Request :=
  request_with "couple.png" "1:1" "a man img" "" 3 true.

Definition dims3 : Z * Z := (1024, 1024).

Definition styled3 : string * string :=
  ("a man img, again a man img", "quiet ").

(** A classifier that flags the first image only, and a table without the
    default style. *)
Definition short_classifier (images : list Image) : list bool :=
  take 1 (classifier images).

Definition careless : Predictor Image Embedding := {|
  encode := tokenize;
  convert_tokens_to_ids := token_id;
  styles := style_table;
  aspect_ratios := ratio_table;
  load_image := picture;
  analyze_faces := faces;
  pipe := generator;
  safety_checker := short_classifier;
  safety_checker_images := blackened
|}.

Definition styleless : Predictor Image Embedding := {|
  encode := tokenize;
  convert_tokens_to_ids := token_id;
  styles := delete DEFAULT_STYLE_NAME style_table;
  aspect_ratios := ratio_table;
  load_image := picture;
  analyze_faces := faces;
  pipe := generator;
  safety_checker := classifier;
  safety_checker_images := blackened
|}.

Definition world0 : World Image Embedding :=
  {| outputs := Some (<[ "image_7.png" := [9%nat] ]> ∅);
     entropy := 42;
     trace := [] |}.

End Demo.

(** * Properties *)

(** ** Token lists *)

Module PyListFacts.
Import PyList.

Lemma count_nonneg x l : 0 <= count x l.
Proof.
  induction l as [|y l IH]; simpl; [lia|].
  destruct (Z.eqb y x); lia.
Qed.

Lemma contains_count x l : contains x l = true <-> 0 < count x l.
Proof.
  unfold contains.
  induction l as [|y l IH]; simpl.
  - split; [discriminate | lia].
  - pose proof (count_nonneg x l) as Hc.
    rewrite (Z.eqb_sym x y).
    destruct (Z.eqb y x); simpl.
    + split; [lia | reflexivity].
    + rewrite IH. split; lia.
Qed.

Lemma contains_false_count x l : contains x l = false <-> count x l = 0.
Proof.
  pose proof (contains_count x l) as H.
  pose proof (count_nonneg x l) as Hc.
  destruct (contains x l).
  - split; [discriminate|]. intros E. destruct H as [H _].
    specialize (H eq_refl). lia.
  - split; [|reflexivity]. intros _.
    destruct (Z.eq_dec (count x l) 0) as [E|E]; [exact E|].
    destruct H as [_ H]. assert (0 < count x l) as Hp by lia.
    specialize (H Hp). discriminate.
Qed.

End PyListFacts.

(** ** The merge step *)

Module MergeStep.

Lemma of_int_steps_table :
  forallb (fun k => is_inr (PyFloat.of_int (Z.of_nat k))) (seq 1 100) = true.
Proof. vm_compute. reflexivity. Qed.

(** A step count within the declared range converts to [float] without
    error. *)
Lemma of_int_steps n : 1 <= n <= 100 -> exists x, PyFloat.of_int n = inr x.
Proof.
  intros Hn.
  pose proof of_int_steps_table as T.
  rewrite forallb_forall in T.
  specialize (T (Z.to_nat n)).
  rewrite Z2Nat.id in T by lia.
  assert (In (Z.to_nat n) (seq 1 100)) as Hin by (apply in_seq; lia).
  specialize (T Hin).
  destruct (PyFloat.of_int n) as [e|x]; [discriminate|].
  exists x. reflexivity.
Qed.

Lemma of_int_100 : PyFloat.of_int 100 = inr 100%float.
Proof. vm_compute. reflexivity. Qed.

Lemma cap_is_min s : (if 30 <? s then 30 else s) = Z.min 30 s.
Proof. destruct (Z.ltb_spec 30 s); lia. Qed.

(** The claim as stated fails where the fraction exceeds 30: with 100 steps
    and a ratio of 50 the exact and the floating-point fraction are both 50,
    and the merge step is 30. *)
Lemma start_merge_step_not_fraction :
  float_between 15 50 50 = true /\ 1 <= 100 <= 100 /\
  merge_fraction 50 100 = inr (50 * 100 / 100) /\
  start_merge_step 50 100 = inr 30 /\
  start_merge_step 50 100 <> merge_fraction 50 100.
Proof.
  repeat split; try (vm_compute; reflexivity); try lia.
  vm_compute. discriminate.
Qed.

(** C5, amended: for a step count in [1,100] (and any ratio) the step count
    converts to a float [x] without error and [start_merge_step] is the
    minimum of 30 and the truncation of [ratio / 100.0 * x], the product
    being the binary64 one; an error of the truncation is passed on. *)
Theorem start_merge_step_capped (ratio : float) (n : Z) :
  1 <= n <= 100 ->
  exists x,
    PyFloat.of_int n = inr x /\
    start_merge_step ratio n =
      match PyFloat.to_int (PrimFloat.mul (PrimFloat.div ratio 100) x) with
      | inl e => inl e
      | inr s => inr (Z.min 30 s)
      end.
Proof.
  intros Hn.
  destruct (of_int_steps n Hn) as [x Hx].
  exists x. split; [exact Hx|].
  unfold start_merge_step, merge_fraction, PyFloat.div_int, PyFloat.mul_int.
  rewrite of_int_100, Hx.
  destruct (PyFloat.to_int _) as [e|s]; [reflexivity|].
  rewrite cap_is_min. reflexivity.
Qed.

Lemma start_merge_step_capped_witness :
  1 <= 20 <= 100 /\
  exists x,
    PyFloat.of_int 20 = inr x /\
    start_merge_step 20 20 =
      match PyFloat.to_int (PrimFloat.mul (PrimFloat.div 20 100) x) with
      | inl e => inl e
      | inr s => inr (Z.min 30 s)
      end.
Proof.
  split; [lia|]. apply (start_merge_step_capped 20 20). lia.
Defined.

(** Binary64 rounding shows below the cap too: 29 / 100 * 100 truncates to
    28, not to the exact 29. *)
Lemma merge_fraction_rounding :
  merge_fraction 29 100 = inr 28 /\ 29 * 100 / 100 = 29.
Proof. split; vm_compute; reflexivity. Qed.

Lemma start_merge_step_default : start_merge_step 20 20 = inr 4.
Proof. vm_compute. reflexivity. Qed.

End MergeStep.

(** ** String replacement *)

Module PyStrFacts.
Import PyStr.

(** stdpp keeps [+:+] folded under [simpl]; the proofs below compute with
    it. *)
#[local] Arguments String.append !s1 s2 : simpl nomatch.

Lemma app_nil_r s : s +:+ "" = s.
Proof. induction s as [|c s IH]; simpl; [reflexivity | f_equal; exact IH]. Qed.

Lemma app_assoc a b c : (a +:+ b) +:+ c = a +:+ b +:+ c.
Proof. induction a as [|x a IH]; simpl; [reflexivity | f_equal; exact IH]. Qed.

Lemma drop_0 s : drop 0 s = s.
Proof. destruct s; reflexivity. Qed.

Lemma drop_app m t : drop (String.length m) (m +:+ t) = t.
Proof. induction m as [|c m IH]; simpl; [apply drop_0 | exact IH]. Qed.

(** A true [prefix] test exposes the rest of the string. *)
Lemma prefix_split p s : String.prefix p s = true -> exists t, s = p +:+ t.
Proof.
  revert s. induction p as [|a p IH]; intros s H.
  - exists s. reflexivity.
  - destruct s as [|b s]; simpl in H; [discriminate|].
    destruct (Ascii.ascii_dec a b) as [->|]; [|discriminate].
    destruct (IH s H) as [t ->]. exists t. reflexivity.
Qed.

Lemma prefix_app p t : String.prefix p (p +:+ t) = true.
Proof.
  induction p as [|a p IH]; simpl.
  - destruct t; reflexivity.
  - destruct (Ascii.ascii_dec a a); [exact IH | congruence].
Qed.

Lemma join_cons_piece sep c piece pieces :
  join sep (String c piece :: pieces) = String c (join sep (piece :: pieces)).
Proof. destruct pieces; reflexivity. Qed.

Lemma join_cons_empty sep pieces :
  pieces <> [] -> join sep ("" :: pieces) = sep +:+ join sep pieces.
Proof. destruct pieces; [congruence | reflexivity]. Qed.

Lemma split_from_nonempty skip old s : split_from skip old s <> [].
Proof.
  revert skip. induction s as [|c s IH]; intros skip; cbn [split_from];
    [discriminate|].
  destruct skip; [|apply IH].
  destruct (String.prefix old (String c s)); [discriminate|].
  destruct (split_from 0 old s); discriminate.
Qed.

(** [s.replace(old, new) == new.join(s.split(old))], with the skip counter
    of the scan made explicit. *)
Lemma replace_from_join skip old new s :
  replace_from skip old new s = join new (split_from skip old s).
Proof.
  revert skip. induction s as [|c s IH]; intros skip;
    cbn [replace_from split_from]; [reflexivity|].
  destruct skip as [|k]; [|apply IH].
  destruct (String.prefix old (String c s)).
  - rewrite join_cons_empty by apply split_from_nonempty.
    now rewrite IH.
  - rewrite (IH 0%nat).
    pose proof (split_from_nonempty 0 old s) as Hne.
    destruct (split_from 0 old s) as [|piece pieces]; [congruence|].
    now rewrite join_cons_piece.
Qed.

(** [old.join(s.split(old)) == s]; while [skip] characters of a match are
    still to be dropped, the pieces are those of the rest. *)
Lemma join_split_from a old' skip s :
  join (String a old') (split_from skip (String a old') s) = drop skip s.
Proof.
  set (old := String a old').
  revert skip. induction s as [|c s IH]; intros skip.
  - destruct skip; reflexivity.
  - destruct skip as [|k]; [|apply IH].
    cbn [split_from drop].
    destruct (String.prefix old (String c s)) eqn:Hp.
    + rewrite join_cons_empty by apply split_from_nonempty.
      rewrite IH.
      destruct (prefix_split _ _ Hp) as [t Ht].
      unfold old in Ht. simpl in Ht. injection Ht as -> ->.
      unfold old. simpl. rewrite Nat.sub_0_r, drop_app. reflexivity.
    + specialize (IH 0%nat). rewrite drop_0 in IH.
      pose proof (split_from_nonempty 0 old s) as Hne.
      destruct (split_from 0 old s) as [|piece pieces]; [congruence|].
      rewrite join_cons_piece, IH. reflexivity.
Qed.

Lemma occurs_empty a old' : ~ occurs (String a old') "".
Proof.
  intros (u & v & H). destruct u; simpl in H; discriminate.
Qed.

Lemma occurs_cons old c s :
  occurs old (String c s) -> String.prefix old (String c s) = true \/ occurs old s.
Proof.
  intros (u & v & H). destruct u as [|x u]; simpl in H.
  - left. rewrite H. apply prefix_app.
  - right. injection H as _ ->. exists u, v. reflexivity.
Qed.

Lemma prefix_app_r p s w :
  String.prefix p s = true -> String.prefix p (s +:+ w) = true.
Proof.
  intros H. destruct (prefix_split _ _ H) as [t ->].
  rewrite app_assoc. apply prefix_app.
Qed.

(** The first piece is a prefix of the string that was split. *)
Lemma join_head sep piece pieces : exists w, join sep (piece :: pieces) = piece +:+ w.
Proof.
  destruct pieces as [|q pieces].
  - exists "". simpl. now rewrite app_nil_r.
  - exists (sep +:+ join sep (q :: pieces)). reflexivity.
Qed.

(** No piece of the split contains [old]. *)
Lemma split_from_free a old' skip s :
  Forall (fun piece => ~ occurs (String a old') piece)
         (split_from skip (String a old') s).
Proof.
  set (old := String a old').
  revert skip. induction s as [|c s IH]; intros skip.
  - simpl. constructor; [apply occurs_empty | constructor].
  - destruct skip as [|k]; [|apply IH].
    cbn [split_from].
    destruct (String.prefix old (String c s)) eqn:Hp.
    + constructor; [apply occurs_empty | apply IH].
    + specialize (IH 0%nat).
      pose proof (join_split_from a old' 0 s) as Hj. fold old in Hj.
      rewrite drop_0 in Hj.
      pose proof (split_from_nonempty 0 old s) as Hne.
      destruct (split_from 0 old s) as [|piece pieces]; [congruence|].
      apply Forall_cons in IH as [Hpiece Hrest].
      constructor; [|exact Hrest].
      intros Hocc. apply occurs_cons in Hocc as [Hpre|Hocc]; [|tauto].
      destruct (join_head old piece pieces) as [w Hw].
      rewrite Hw in Hj. rewrite <- Hj in Hp.
      change (String c (piece +:+ w)) with (String c piece +:+ w) in Hp.
      rewrite (prefix_app_r _ _ w Hpre) in Hp. discriminate.
Qed.

End PyStrFacts.

(** ** Unique decomposition around the placeholder *)

Module Pieces.
Import PyStr PyStrFacts.

#[local] Arguments String.append !s1 s2 : simpl nomatch.

Lemma cuts_complete s u v : s = u +:+ v -> (u, v) ∈ cuts s.
Proof.
  revert s. induction u as [|c u IH]; intros s ->.
  - destruct v; simpl; apply list_elem_of_here.
  - simpl. apply list_elem_of_further.
    apply (list_elem_of_fmap_2 (fun uv => (String c (fst uv), snd uv))
                               _ (u, v)).
    apply IH. reflexivity.
Qed.

Lemma border_free_check old :
  forallb (no_border_at old) (cuts old) = true -> border_free old.
Proof.
  intros Hall u v w Hu Hv.
  rewrite forallb_forall in Hall.
  specialize (Hall (u, v)).
  assert (In (u, v) (cuts old)) as Hin
    by (apply list_elem_of_In, cuts_complete, Hu).
  specialize (Hall Hin). unfold no_border_at in Hall. simpl in Hall.
  destruct u as [|a u]; [left; reflexivity|].
  destruct v as [|b v]; [right; reflexivity|].
  exfalso.
  assert (String.prefix (String b v) old = true) as Hp
    by (rewrite Hv; apply prefix_app).
  rewrite Hp in Hall. discriminate.
Qed.

Lemma placeholder_border_free : border_free placeholder.
Proof. apply border_free_check. vm_compute. reflexivity. Qed.

(** Two ways to write one string as a concatenation share a middle part. *)
Lemma app_eq_app a b c d :
  a +:+ b = c +:+ d ->
  (exists e, a = c +:+ e /\ d = e +:+ b) \/
  (exists e, c = a +:+ e /\ b = e +:+ d).
Proof.
  revert c. induction a as [|x a IH]; intros c H.
  - right. exists c. split; [reflexivity | exact H].
  - destruct c as [|y c].
    + left. exists (String x a). split; [reflexivity|]. simpl in H. now rewrite <- H.
    + simpl in H. injection H as -> H.
      destruct (IH c H) as [(e & -> & ->)|(e & -> & ->)].
      * left. exists e. split; reflexivity.
      * right. exists e. split; reflexivity.
Qed.

Lemma length_app a b :
  String.length (a +:+ b) = (String.length a + String.length b)%nat.
Proof. induction a as [|x a IH]; simpl; [reflexivity | now rewrite IH]. Qed.

(** A piece without [old] followed by [old]: for a border-free [old] no
    occurrence starts inside the piece. *)
Lemma no_straddle old c piece rest :
  border_free old -> ~ occurs old (String c piece) ->
  String.prefix old (String c piece +:+ old +:+ rest) = false.
Proof.
  intros Hbf Hfree.
  destruct (String.prefix old _) eqn:Hp; [exfalso | reflexivity].
  apply prefix_split in Hp as [t Ht].
  apply app_eq_app in Ht as [(e & Hpiece & _)|(e & Hold & Hrest)].
  - (* the occurrence ends inside the piece *)
    apply Hfree. exists "", e. exact Hpiece.
  - apply app_eq_app in Hrest as [(f & Hold' & _)|(f & He & _)].
    + (* it ends inside the following [old]: a border *)
      destruct (Hbf (String c piece) e f Hold Hold') as [E|E];
        [discriminate|].
      subst e. rewrite app_nil_r in Hold.
      apply Hfree. exists "", "". rewrite <- Hold. simpl.
      now rewrite app_nil_r.
    + (* it would swallow the whole following [old] *)
      apply (f_equal String.length) in Hold.
      rewrite He, !length_app in Hold. simpl in Hold. lia.
Qed.

Lemma occurs_tail old c s : occurs old s -> occurs old (String c s).
Proof. intros (u & v & ->). exists (String c u), v. reflexivity. Qed.

Lemma free_not_prefix old s : ~ occurs old s -> old <> "" -> String.prefix old s = false.
Proof.
  intros Hfree _. destruct (String.prefix old s) eqn:Hp; [|reflexivity].
  exfalso. apply Hfree. apply prefix_split in Hp as [t ->]. exists "", t. reflexivity.
Qed.

(** A string without [old] is a single piece. *)
Lemma split_free a old' s :
  ~ occurs (String a old') s -> split (String a old') s = [s].
Proof.
  unfold split. set (old := String a old').
  induction s as [|c s IH]; intros Hfree; [reflexivity|].
  cbn [split_from].
  rewrite (free_not_prefix old (String c s) Hfree) by discriminate.
  rewrite IH; [reflexivity|].
  intros Hocc. apply Hfree, occurs_tail, Hocc.
Qed.

Lemma split_from_skip skip old m t :
  String.length m = skip -> split_from skip old (m +:+ t) = split_from 0 old t.
Proof.
  revert skip. induction m as [|x m IH]; intros skip <-; simpl.
  - destruct t; reflexivity.
  - apply IH. reflexivity.
Qed.

(** Splitting a piece without [old], then [old], then more. *)
Lemma split_piece a old' piece rest :
  border_free (String a old') -> ~ occurs (String a old') piece ->
  split (String a old') (piece +:+ String a old' +:+ rest) =
  piece :: split (String a old') rest.
Proof.
  unfold split. set (old := String a old'). intros Hbf.
  induction piece as [|c piece IH]; intros Hfree.
  - change ("" +:+ old +:+ rest) with (String a (old' +:+ rest)).
    cbn [split_from].
    change (String a (old' +:+ rest)) with (old +:+ rest).
    rewrite prefix_app. f_equal.
    apply split_from_skip. unfold old. simpl. lia.
  - change (String c piece +:+ old +:+ rest)
      with (String c (piece +:+ old +:+ rest)).
    cbn [split_from].
    change (String c (piece +:+ old +:+ rest))
      with (String c piece +:+ old +:+ rest).
    rewrite (no_straddle old c piece rest Hbf Hfree).
    rewrite IH; [reflexivity|].
    intros Hocc. apply Hfree, occurs_tail, Hocc.
Qed.

(** For a border-free [old], pieces without [old] joined by [old] split back
    into themselves: the decomposition of a string is unique. *)
Lemma split_join a old' pieces :
  border_free (String a old') -> pieces <> [] ->
  Forall (fun piece => ~ occurs (String a old') piece) pieces ->
  split (String a old') (join (String a old') pieces) = pieces.
Proof.
  intros Hbf Hne Hall.
  induction pieces as [|piece pieces IH]; [congruence|].
  apply Forall_cons in Hall as [Hpiece Hall].
  destruct pieces as [|q pieces].
  - simpl. apply split_free, Hpiece.
  - change (join (String a old') (piece :: q :: pieces))
      with (piece +:+ String a old' +:+ join (String a old') (q :: pieces)).
    rewrite split_piece by assumption.
    f_equal. apply IH; [discriminate | exact Hall].
Qed.

End Pieces.

(** ** [apply_style] *)

Module Style.
Import PyStr PyStrFacts Pieces.

Lemma replace_placeholder new template :
  replace placeholder new template = join new (split placeholder template).
Proof. apply replace_from_join. Qed.

Lemma replace_replaces new template :
  every_occurrence_replaced placeholder new template
    (replace placeholder new template).
Proof.
  exists (split placeholder template). split; [|split].
  - apply split_from_free.
  - symmetry. apply (join_split_from _ _ 0).
  - apply replace_placeholder.
Qed.

Lemma replaced_unique new template result :
  every_occurrence_replaced placeholder new template result ->
  result = replace placeholder new template.
Proof.
  intros (pieces & Hfree & -> & ->).
  rewrite replace_placeholder.
  destruct pieces as [|piece pieces]; [reflexivity|].
  unfold placeholder.
  rewrite split_join; [reflexivity | | discriminate | exact Hfree].
  apply placeholder_border_free.
Qed.

Lemma styled_replace template positive negative :
  styled template positive negative
    (inr (replace placeholder positive (fst template),
          snd template +:+ " " +:+ negative)).
Proof.
  exists (replace placeholder positive (fst template)).
  split; [reflexivity|]. split; [apply replace_replaces|].
  intros other H. apply replaced_unique, H.
Qed.

(** C9: with the default style in the table, [apply_style] returns, for a
    known style, its positive template with every ["{prompt}"] replaced by
    the prompt, paired with its negative template, a space and the negative
    prompt; for an unknown style it does the same with the templates of
    ["Photographic (Default)"]. *)
Theorem apply_style_spec (styles : gmap string (string * string))
    (style_name positive negative : string) (dflt : string * string) :
  styles !! DEFAULT_STYLE_NAME = Some dflt ->
  (forall template, styles !! style_name = Some template ->
     styled template positive negative
       (apply_style styles style_name positive negative)) /\
  (styles !! style_name = None ->
     styled dflt positive negative
       (apply_style styles style_name positive negative)).
Proof.
  intros Hd. unfold apply_style. rewrite Hd.
  split.
  - intros [p n] ->. apply (styled_replace (p, n)).
  - intros ->. destruct dflt as [p n]. apply (styled_replace (p, n)).
Qed.

Lemma apply_style_spec_witness :
  Demo.style_table !! DEFAULT_STYLE_NAME =
    Some ("cinematic photo {prompt} . 35mm photograph", "drawing, painting") /\
  (forall template, Demo.style_table !! "Echo" = Some template ->
     styled template "a man img" "blurry"
       (apply_style Demo.style_table "Echo" "a man img" "blurry")) /\
  (Demo.style_table !! "Echo" = None ->
     styled ("cinematic photo {prompt} . 35mm photograph", "drawing, painting")
       "a man img" "blurry"
       (apply_style Demo.style_table "Echo" "a man img" "blurry")).
Proof.
  split; [vm_compute; reflexivity|].
  apply (apply_style_spec Demo.style_table "Echo" "a man img" "blurry").
  vm_compute. reflexivity.
Defined.

Example apply_style_echo :
  apply_style Demo.style_table "Echo" "a man img" "blurry" =
  inr ("a man img, again a man img", "quiet blurry").
Proof. vm_compute. reflexivity. Qed.

Example apply_style_unknown :
  apply_style Demo.style_table "Noir" "a man img" "" =
  inr ("cinematic photo a man img . 35mm photograph", "drawing, painting ").
Proof. vm_compute. reflexivity. Qed.

Example apply_style_no_default :
  apply_style (delete DEFAULT_STYLE_NAME Demo.style_table) "Echo" "a man img" "" =
  inl (KeyError DEFAULT_STYLE_NAME).
Proof. vm_compute. reflexivity. Qed.

End Style.

(** ** Running the steps of [predict] *)

(** Unfold the primitive operations of the monad and compute. *)
Ltac run_monad :=
  unfold folder_exists, rmtree, makedirs, randint, save, run_pipe,
    run_safety_checker, get_outputs, set_outputs, emit, raise, lift;
  unfold mbind, M_bind, mret, M_ret; cbn.

Section Steps.

Context {Image Embedding : Type} {self : Predictor Image Embedding}.

Implicit Types (w : World Image Embedding) (r : Request).

Lemma add_trace_nil w : add_trace w [] = w.
Proof. destruct w. unfold add_trace. simpl. now rewrite app_nil_r. Qed.

Lemma add_trace_app w evs evs' :
  add_trace (add_trace w evs) evs' = add_trace w (evs ++ evs').
Proof. unfold add_trace. simpl. now rewrite app_assoc. Qed.

Lemma prepare_output_folder_run w :
  prepare_output_folder w = (inr tt, prepared w).
Proof.
  destruct w as [[files|] ent tr];
    unfold prepare_output_folder, prepared, folder_events; run_monad;
    rewrite <- ?app_assoc; reflexivity.
Qed.

Lemma choose_seed_run s w :
  choose_seed s w = (inr (chosen_seed s w), seeded s w).
Proof. destruct s; unfold choose_seed; run_monad; reflexivity. Qed.

(** The loading loop, from any index and accumulator. *)
Lemma load_loop (inputs : list (option Path)) :
  forall i acc w,
    for_enumerate (fun _ => load_body) i inputs acc w
    = (inr (acc ++ (load_image <$> omap id inputs)),
       add_trace w (LoadImage <$> omap id inputs)).
Proof.
  induction inputs as [|[p|] inputs IH]; intros i acc w.
  - cbn. now rewrite app_nil_r, add_trace_nil.
  - cbn [for_enumerate]. unfold load_body. run_monad. rewrite IH.
    rewrite <- app_assoc.
    f_equal. unfold add_trace. cbn. now rewrite <- app_assoc.
  - cbn [for_enumerate]. unfold load_body. run_monad. apply IH.
Qed.

Lemma load_input_images_run r w :
  load_input_images r w
  = (inr (load_image <$> supplied r), add_trace w (LoadImage <$> supplied r)).
Proof. unfold load_input_images, for_each. apply load_loop. Qed.

(** The embedding loop, from any index and accumulator: it never raises. *)
Lemma embed_loop (images : list Image) :
  forall i acc w,
    for_enumerate (fun _ => embed_body) i images acc w
    = (inr (acc ++ first_face_embeds images),
       add_trace w (AnalyzeFaces <$> images)).
Proof.
  induction images as [|img images IH]; intros i acc w.
  - cbn. now rewrite app_nil_r, add_trace_nil.
  - cbn [for_enumerate]. unfold embed_body, first_face_embeds.
    run_monad. fold (first_face_embeds images).
    destruct (analyze_faces img) as [|face faces]; cbn; rewrite IH.
    + f_equal. unfold add_trace. cbn. now rewrite <- app_assoc.
    + rewrite <- app_assoc. f_equal. unfold add_trace. cbn.
      now rewrite <- app_assoc.
Qed.

Lemma collect_id_embeds_run (images : list Image) w :
  collect_id_embeds images w
  = (inr (first_face_embeds images),
     add_trace w (AnalyzeFaces <$> images)).
Proof.
  unfold collect_id_embeds, for_each. apply embed_loop.
Qed.

Lemma enumerate_from_cons i img (images : list Image) :
  enumerate_from i (img :: images) = (i, img) :: enumerate_from (S i) images.
Proof. reflexivity. Qed.

Lemma kept_from_cons flags i img (images : list Image) :
  kept_from flags i (img :: images) =
  (if passes flags i then [(i, img)] else []) ++ kept_from flags (S i) images.
Proof.
  unfold kept_from. rewrite enumerate_from_cons, filter_cons. cbn.
  destruct (passes flags i); cbn.
  - rewrite decide_True by reflexivity. reflexivity.
  - rewrite decide_False by discriminate. reflexivity.
Qed.

Lemma for_enumerate_cons {A B} (body : nat -> A -> B -> M Image Embedding B)
    i x l acc w :
  for_enumerate body i (x :: l) acc w =
  match body i x acc w with
  | (inl e, w') => (inl e, w')
  | (inr acc', w') => for_enumerate body (S i) l acc' w'
  end.
Proof. reflexivity. Qed.

(** One turn of the saving loop: an image that passes is written and its
    path appended; a flagged one leaves everything as it is. *)
Lemma save_body_disabled has_nsfw_content i img acc w files :
  outputs w = Some files ->
  save_body true has_nsfw_content i img acc w =
  (inr (acc ++ [output_path i]),
   {| outputs := Some (<[image_name i := img]> files);
      entropy := entropy w;
      trace := trace w ++ [Save (image_name i) img] |}).
Proof.
  intros Hout. unfold save_body. run_monad. now rewrite Hout.
Qed.

Lemma save_body_unflagged flags i img acc w files :
  flags !! i = Some false -> outputs w = Some files ->
  save_body false (Some flags) i img acc w =
  (inr (acc ++ [output_path i]),
   {| outputs := Some (<[image_name i := img]> files);
      entropy := entropy w;
      trace := trace w ++ [Save (image_name i) img] |}).
Proof.
  intros Hb Hout. unfold save_body. run_monad. rewrite Hb. cbn.
  now rewrite Hout.
Qed.

Lemma save_body_flagged flags i img acc w :
  flags !! i = Some true ->
  save_body false (Some flags) i img acc w = (inr acc, w).
Proof.
  intros Hb. unfold save_body. run_monad. now rewrite Hb.
Qed.

Lemma save_body_unreadable flags i img acc w :
  flags !! i = None ->
  save_body false (Some flags) i img acc w = (inl IndexError, w).
Proof.
  intros Hb. unfold save_body. run_monad. now rewrite Hb.
Qed.

(** When the flags can be read for every index of the loop, the saving loop
    does not raise: it writes the images that pass and returns their
    paths. *)
Lemma save_loop (disable : bool) (has_nsfw_content : option (list bool))
    (images : list Image) :
  forall i acc w files,
    outputs w = Some files ->
    (disable = true \/
     exists flags, disable = false /\ has_nsfw_content = Some flags /\
                   (i + length images <= length flags)%nat) ->
    let flags := if disable then None else has_nsfw_content in
    for_enumerate (save_body disable has_nsfw_content) i images acc w
    = (inr (acc ++ (output_path <$> (fst <$> kept_from flags i images))),
       {| outputs := Some (save_all files (kept_from flags i images));
          entropy := entropy w;
          trace := trace w ++ save_events (kept_from flags i images) |}).
Proof.
  induction images as [|img images IH]; intros i acc w files Hout Hflags flags.
  - cbn. rewrite !app_nil_r. destruct w; cbn in *. now rewrite Hout.
  - rewrite for_enumerate_cons, kept_from_cons.
    destruct Hflags as [->|(fl & -> & -> & Hlen)]; subst flags.
    + (* checker disabled: the image is saved *)
      rewrite (save_body_disabled _ _ _ _ _ files Hout).
      erewrite IH; [| reflexivity | left; reflexivity].
      cbn. rewrite <- !app_assoc. reflexivity.
    + cbn in Hlen.
      destruct (lookup_lt_is_Some_2 fl i) as [b Hb]; [lia|].
      assert (exists fl', false = false /\ Some fl = Some fl' /\
                          (S i + length images <= length fl')%nat) as Hflags'
        by (exists fl; split; [reflexivity|]; split; [reflexivity | lia]).
      assert (passes (Some fl) i = negb b) as ->
        by (unfold passes; now rewrite Hb).
      destruct b; cbn [negb].
      * (* flagged: [continue] *)
        rewrite (save_body_flagged _ _ _ _ _ Hb).
        rewrite (IH (S i) acc w files Hout (or_intror Hflags')). reflexivity.
      * rewrite (save_body_unflagged _ _ _ _ _ files Hb Hout).
        erewrite IH; [| reflexivity | right; exact Hflags'].
        cbn. rewrite <- !app_assoc. reflexivity.
Qed.

End Steps.

(** ** Running [predict] *)

Section Runs.

Context {Image Embedding : Type} {self : Predictor Image Embedding}.

Implicit Types (w : World Image Embedding) (r : Request).

(** [predict] clears the folder and fixes the seed, then checks the
    prompt. *)
Lemma predict_run r w :
  predict r w =
  match check_prompt (prompt r) with
  | inl e => (inl e, checked_in r w)
  | inr _ =>
      after_prompt_check r (chosen_seed (seed r) (prepared w)) (checked_in r w)
  end.
Proof.
  unfold predict, mbind, M_bind.
  rewrite prepare_output_folder_run, choose_seed_run.
  unfold lift, checked_in.
  destruct (check_prompt (prompt r)) as [e|[]]; reflexivity.
Qed.

(** The three lookups that follow raise in the world they are made in; the
    images are loaded after them. *)
Lemma after_prompt_check_run r seed w :
  after_prompt_check r seed w =
  match check_negative_prompt (negative_prompt r) with
  | inl e => (inl e, w)
  | inr _ =>
      match output_dimensions (aspect_ratio_name r) with
      | inl e => (inl e, w)
      | inr dims =>
          match apply_style styles (style_name r) (prompt r) (negative_prompt r) with
          | inl e => (inl e, w)
          | inr styled =>
              generate r seed (fst dims) (snd dims) (fst styled) (snd styled)
                (loaded r) (add_trace w (LoadImage <$> supplied r))
          end
      end
  end.
Proof.
  unfold after_prompt_check, mbind, M_bind, lift.
  destruct (check_negative_prompt (negative_prompt r)) as [e|[]]; [reflexivity|].
  destruct (output_dimensions (aspect_ratio_name r)) as [e|dims]; [reflexivity|].
  destruct (apply_style styles (style_name r) (prompt r) (negative_prompt r))
    as [e|styled]; [reflexivity|].
  rewrite load_input_images_run. reflexivity.
Qed.

Lemma generate_run r seed output_w output_h prompt negative_prompt
    (images : list Image) w :
  generate r seed output_w output_h prompt negative_prompt images w =
  let w1 := add_trace w (AnalyzeFaces <$> images) in
  match first_face_embeds images with
  | [] => (inl (ValueError no_face_msg), w1)
  | _ :: _ =>
      match start_merge_step (style_strength_ratio r) (num_steps r) with
      | inl e => (inl e, w1)
      | inr merge =>
          let args :=
            generate_args r seed output_w output_h prompt negative_prompt
              images merge in
          save_outputs (disable_safety_checker r) (flags_for r (pipe args))
            (pipe args)
            (add_trace w1 (RunPipe args :: checker_events r (pipe args)))
      end
  end.
Proof.
  unfold generate. unfold mbind at 1. unfold M_bind at 1.
  rewrite collect_id_embeds_run. cbn zeta.
  destruct (first_face_embeds images) as [|e es] eqn:Hemb; [reflexivity|].
  unfold mbind, M_bind, lift. cbn [length Nat.eqb mret M_ret].
  destruct (start_merge_step (style_strength_ratio r) (num_steps r))
    as [e'|merge]; [reflexivity|].
  unfold generate_args, flags_for, checker_events. rewrite Hemb.
  destruct (disable_safety_checker r); run_monad; unfold add_trace; cbn;
    rewrite <- ?app_assoc; reflexivity.
Qed.

(** An accepted request reaches the saving loop, after one call of the
    pipeline. *)
Lemma predict_accepted r w dims styled merge :
  accepted r dims styled merge ->
  predict r w =
  save_outputs (disable_safety_checker r)
    (flags_for r (pipe (call_args r w dims styled merge)))
    (pipe (call_args r w dims styled merge))
    (add_trace (checked_in r w)
       (generation_events r (call_args r w dims styled merge)
        ++ checker_events r (pipe (call_args r w dims styled merge)))).
Proof.
  intros ((Hp & Hn & Hd & Hs) & Hfaces & Hm).
  rewrite predict_run, Hp, after_prompt_check_run, Hn, Hd, Hs, generate_run.
  cbn zeta. unfold id_batch in Hfaces.
  destruct (first_face_embeds (loaded r)) as [|e es] eqn:Hemb; [done|].
  rewrite Hm. unfold call_args, generation_events, embedding_events.
  rewrite !add_trace_app. rewrite <- !app_assoc. reflexivity.
Qed.

(** The saving loop from the start. *)
Lemma save_outputs_run (disable : bool) (has_nsfw_content : option (list bool))
    (images : list Image) w files :
  outputs w = Some files ->
  (disable = true \/
   exists flags, disable = false /\ has_nsfw_content = Some flags /\
                 (length images <= length flags)%nat) ->
  save_outputs disable has_nsfw_content images w
  = (inr (output_path <$>
            (fst <$> kept (if disable then None else has_nsfw_content) images)),
     {| outputs :=
          Some (save_all files
                  (kept (if disable then None else has_nsfw_content) images));
        entropy := entropy w;
        trace := trace w ++
          save_events (kept (if disable then None else has_nsfw_content) images) |}).
Proof.
  intros Hout Hflags. unfold save_outputs, kept.
  rewrite (save_loop disable has_nsfw_content images 0 [] w files Hout Hflags).
  reflexivity.
Qed.

(** Whatever its outcome, the saving loop only adds [Save] calls to the
    trace, for some of the images it is given and in their order, and the
    folder and the paths follow these calls. *)
Lemma save_body_outcome disable has_nsfw_content i (img : Image) acc w files :
  outputs w = Some files ->
  exists l,
    (l = [] \/ l = [(i, img)]) /\
    trace (snd (save_body disable has_nsfw_content i img acc w))
    = trace w ++ save_events l /\
    outputs (snd (save_body disable has_nsfw_content i img acc w))
    = Some (save_all files l) /\
    forall acc',
      fst (save_body disable has_nsfw_content i img acc w) = inr acc' ->
      acc' = acc ++ (output_path <$> (fst <$> l)).
Proof.
  intros Hout.
  assert (exists l : list (nat * Image),
    (l = [] \/ l = [(i, img)]) /\
    trace w = trace w ++ save_events l /\
    outputs w = Some (save_all files l) /\
    acc = acc ++ (output_path <$> (fst <$> l))) as Hskip.
  { exists []. cbn. rewrite !app_nil_r. auto. }
  destruct Hskip as (l0 & Hl0 & Htr0 & Hout0 & Hacc0).
  unfold save_body. run_monad.
  destruct disable; cbn.
  - rewrite Hout. cbn. exists [(i, img)]. repeat split; auto.
    now intros acc' [= <-].
  - destruct has_nsfw_content as [flags|]; cbn.
    + destruct (flags !! i) as [[|]|]; cbn.
      * exists l0. repeat split; auto. now intros acc' [= <-].
      * rewrite Hout. cbn. exists [(i, img)]. repeat split; auto.
        now intros acc' [= <-].
      * exists l0. repeat split; auto. discriminate.
    + exists l0. repeat split; auto. discriminate.
Qed.

Lemma save_loop_outcome disable has_nsfw_content (images : list Image) :
  forall i acc w files,
    outputs w = Some files ->
    exists l,
      l `sublist_of` enumerate_from i images /\
      trace (snd (for_enumerate (save_body disable has_nsfw_content)
                    i images acc w))
      = trace w ++ save_events l /\
      outputs (snd (for_enumerate (save_body disable has_nsfw_content)
                      i images acc w))
      = Some (save_all files l) /\
      forall paths,
        fst (for_enumerate (save_body disable has_nsfw_content)
               i images acc w) = inr paths ->
        paths = acc ++ (output_path <$> (fst <$> l)).
Proof.
  induction images as [|img images IH]; intros i acc w files Hout.
  - exists []. cbn. rewrite !app_nil_r. repeat split; auto.
    now intros paths [= <-].
  - rewrite for_enumerate_cons, enumerate_from_cons.
    destruct (save_body_outcome disable has_nsfw_content i img acc w files Hout)
      as (l & Hl & Htr & Hfiles & Hacc).
    destruct (save_body disable has_nsfw_content i img acc w)
      as [[e|acc'] w'] eqn:Hbody; cbn [fst snd] in *.
    + exists l. split; [|split; [exact Htr|split; [exact Hfiles|discriminate]]].
      destruct Hl as [-> | ->].
      * apply sublist_nil_l.
      * apply sublist_skip, sublist_nil_l.
    + destruct (IH (S i) acc' w' _ Hfiles) as (l' & Hsub & Htr' & Hfiles' & Hacc').
      exists (l ++ l'). repeat split.
      * destruct Hl as [-> | ->]; cbn.
        -- now apply sublist_cons.
        -- now apply sublist_skip.
      * rewrite Htr', Htr. unfold save_events.
        now rewrite fmap_app, app_assoc.
      * rewrite Hfiles'. unfold save_all. now rewrite foldl_app.
      * intros paths Hpaths. rewrite (Hacc' paths Hpaths), (Hacc acc' eq_refl).
        now rewrite !fmap_app, app_assoc.
Qed.

(** The saving loop raises no [ValueError]. *)
Lemma save_body_error disable has_nsfw_content i (img : Image) acc w e w' :
  save_body disable has_nsfw_content i img acc w = (inl e, w') ->
  is_ValueError e = false.
Proof.
  unfold save_body. run_monad.
  destruct disable; cbn.
  - destruct (outputs w); cbn; intros [= <- _]; reflexivity.
  - destruct has_nsfw_content as [flags|]; cbn.
    + destruct (flags !! i) as [[|]|]; cbn.
      * discriminate.
      * destruct (outputs w); cbn; intros [= <- _]; reflexivity.
      * intros [= <- _]; reflexivity.
    + intros [= <- _]; reflexivity.
Qed.

Lemma save_loop_error disable has_nsfw_content (images : list Image) :
  forall i acc w e w',
    for_enumerate (save_body disable has_nsfw_content) i images acc w
    = (inl e, w') ->
    is_ValueError e = false.
Proof.
  induction images as [|img images IH]; intros i acc w e w'.
  - discriminate.
  - rewrite for_enumerate_cons.
    destruct (save_body disable has_nsfw_content i img acc w)
      as [[e0|acc'] w0] eqn:Hbody.
    + intros [= <- _]. exact (save_body_error _ _ _ _ _ _ _ _ Hbody).
    + apply IH.
Qed.

(** The world in which the checks are made: the folder is there and
    empty, and only the folder calls have been made. *)
Lemma checked_in_trace r w : trace (checked_in r w) = trace w ++ folder_events w.
Proof. unfold checked_in, seeded. now destruct (seed r). Qed.

Lemma checked_in_outputs r w : outputs (checked_in r w) = Some ∅.
Proof. unfold checked_in, seeded. now destruct (seed r). Qed.

Lemma embedding_events_calls r :
  Forall (fun ev : event Image Embedding => is_folder_call ev = false)
    (embedding_events r).
Proof.
  unfold embedding_events. apply Forall_app. split; apply Forall_fmap.
  - now apply Forall_true.
  - now apply Forall_true.
Qed.

(** Every run of [predict]: the folder calls come first, then the calls
    [evs] of the models, then the [Save] calls for the pairs [l]; the folder
    ends up holding what these calls wrote and the paths returned are
    theirs. *)
Lemma predict_outcome r w :
  exists evs l,
    trace (snd (predict r w))
    = trace w ++ folder_events w ++ evs ++ save_events l /\
    Forall (fun ev => is_folder_call ev = false) evs /\
    outputs (snd (predict r w)) = Some (save_all ∅ l) /\
    (forall paths,
       fst (predict r w) = inr paths -> paths = output_path <$> (fst <$> l)) /\
    (l = [] \/
     exists args,
       RunPipe args ∈ evs /\ l `sublist_of` enumerate_from 0 (pipe args)).
Proof.
  pose (good := fun res : (exn + list Path) * World Image Embedding =>
    exists evs l,
      trace (snd res) = trace w ++ folder_events w ++ evs ++ save_events l /\
      Forall (fun ev => is_folder_call ev = false) evs /\
      outputs (snd res) = Some (save_all ∅ l) /\
      (forall paths, fst res = inr paths -> paths = output_path <$> (fst <$> l)) /\
      (l = [] \/
       exists args,
         RunPipe args ∈ evs /\ l `sublist_of` enumerate_from 0 (pipe args))).
  assert (forall e evs,
            Forall (fun ev => is_folder_call ev = false) evs ->
            good (inl e, add_trace (checked_in r w) evs)) as Hfail.
  { intros e evs Hevs. exists evs, []. cbn.
    rewrite checked_in_trace, checked_in_outputs, app_nil_r, <- app_assoc.
    repeat split; auto. discriminate. }
  change (good (predict r w)).
  rewrite predict_run.
  destruct (check_prompt (prompt r)) as [e|[]].
  { rewrite <- (add_trace_nil (checked_in r w)). now apply Hfail. }
  rewrite after_prompt_check_run.
  destruct (check_negative_prompt (negative_prompt r)) as [e|[]].
  { rewrite <- (add_trace_nil (checked_in r w)). now apply Hfail. }
  destruct (output_dimensions (aspect_ratio_name r)) as [e|dims].
  { rewrite <- (add_trace_nil (checked_in r w)). now apply Hfail. }
  destruct (apply_style styles (style_name r) (prompt r) (negative_prompt r))
    as [e|styled].
  { rewrite <- (add_trace_nil (checked_in r w)). now apply Hfail. }
  rewrite generate_run. cbn zeta. rewrite add_trace_app.
  fold (embedding_events r).
  destruct (first_face_embeds (loaded r)) as [|face faces].
  { apply Hfail, embedding_events_calls. }
  destruct (start_merge_step (style_strength_ratio r) (num_steps r))
    as [e|merge].
  { apply Hfail, embedding_events_calls. }
  rewrite add_trace_app.
  match goal with
  | |- good (save_outputs _ _ (pipe ?a) _) => set (args := a)
  end.
  set (evs := embedding_events r ++ RunPipe args :: checker_events r (pipe args)).
  destruct (save_loop_outcome (disable_safety_checker r)
              (flags_for r (pipe args)) (pipe args) 0 []
              (add_trace (checked_in r w) evs) ∅)
    as (l & Hsub & Htr & Hfiles & Hpaths).
  { cbn. apply checked_in_outputs. }
  exists evs, l. unfold save_outputs.
  split; [|split; [|split; [exact Hfiles|split; [exact Hpaths|]]]].
  - rewrite Htr. cbn. rewrite checked_in_trace, <- !app_assoc. reflexivity.
  - unfold evs. apply Forall_app. split; [apply embedding_events_calls|].
    apply Forall_cons. split; [reflexivity|].
    unfold checker_events. destruct (disable_safety_checker r).
    + apply Forall_nil_2.
    + apply Forall_cons. split; [reflexivity | apply Forall_nil_2].
  - right. exists args. split; [|exact Hsub].
    unfold evs. apply elem_of_app. right. apply list_elem_of_here.
Qed.

End Runs.

(** ** The exceptions [predict] can raise *)

Section Failures.

Context {Image Embedding : Type} {self : Predictor Image Embedding}.

Implicit Types (w : World Image Embedding) (r : Request).

Lemma check_prompt_error prompt e :
  check_prompt prompt = inl e ->
  e = ValueError missing_trigger_msg \/ e = ValueError multiple_trigger_msg.
Proof.
  unfold check_prompt.
  destruct (negb (PyList.contains image_token_id (encode prompt))).
  - intros [= <-]. now left.
  - destruct (1 <? PyList.count image_token_id (encode prompt)).
    + intros [= <-]. now right.
    + discriminate.
Qed.

Lemma check_negative_prompt_error negative_prompt e :
  check_negative_prompt negative_prompt = inl e ->
  e = ValueError negative_trigger_msg /\
  PyStr.truthy negative_prompt = true /\
  PyList.contains image_token_id (encode negative_prompt) = true.
Proof.
  unfold check_negative_prompt.
  destruct (PyStr.truthy negative_prompt); [|discriminate].
  destruct (PyList.contains image_token_id (encode negative_prompt));
    [|discriminate].
  intros [= <-]. auto.
Qed.

Lemma output_dimensions_error name e :
  output_dimensions name = inl e -> e = KeyError name.
Proof.
  unfold output_dimensions. destruct (aspect_ratios !! name); congruence.
Qed.

Lemma apply_style_error (table : gmap string (string * string))
    style_name positive negative e :
  apply_style table style_name positive negative = inl e ->
  e = KeyError DEFAULT_STYLE_NAME.
Proof.
  unfold apply_style. destruct (table !! DEFAULT_STYLE_NAME) as [dflt|].
  - destruct (default dflt (table !! style_name)). discriminate.
  - congruence.
Qed.

Lemma of_int_error n e : PyFloat.of_int n = inl e -> e = OverflowError.
Proof.
  unfold PyFloat.of_int.
  match goal with
  | |- context [match ?sf with S754_zero _ => _ | _ => _ end] => destruct sf
  end; congruence.
Qed.

Lemma to_int_error x e :
  PyFloat.to_int x = inl e ->
  e = OverflowError \/ e = ValueError "cannot convert float NaN to integer".
Proof.
  unfold PyFloat.to_int. destruct (Prim2SF x); intros [= <-]; auto.
Qed.

Lemma start_merge_step_error ratio n e :
  start_merge_step ratio n = inl e ->
  e = OverflowError \/ e = ValueError "cannot convert float NaN to integer".
Proof.
  unfold start_merge_step, merge_fraction, PyFloat.div_int, PyFloat.mul_int.
  destruct (PyFloat.of_int 100) as [e1|y] eqn:H100.
  { intros [= <-]. left. exact (of_int_error _ _ H100). }
  destruct (PyFloat.of_int n) as [e2|z] eqn:Hn.
  { intros [= <-]. left. exact (of_int_error _ _ Hn). }
  destruct (PyFloat.to_int (PrimFloat.mul (PrimFloat.div ratio y) z))
    as [e3|s] eqn:Hs.
  - intros [= <-]. exact (to_int_error _ _ Hs).
  - discriminate.
Qed.

(** The [ValueError]s of [predict]: the two prompt checks, the face check
    and the conversion of a [nan] merge step. *)
Lemma predict_ValueError r w msg w' :
  predict r w = (inl (ValueError msg), w') ->
  check_prompt (prompt r) = inl (ValueError msg) \/
  (check_prompt (prompt r) = inr tt /\
   check_negative_prompt (negative_prompt r) = inl (ValueError msg)) \/
  (msg = no_face_msg /\ id_batch r = []) \/
  msg = "cannot convert float NaN to integer".
Proof.
  rewrite predict_run.
  destruct (check_prompt (prompt r)) as [e|[]] eqn:Hp.
  { intros [= -> _]. now left. }
  rewrite after_prompt_check_run.
  destruct (check_negative_prompt (negative_prompt r)) as [e|[]] eqn:Hn.
  { intros [= -> _]. right; left. now split. }
  destruct (output_dimensions (aspect_ratio_name r)) as [e|dims] eqn:Hd.
  { intros [= -> _]. now apply output_dimensions_error in Hd. }
  destruct (apply_style styles (style_name r) (prompt r) (negative_prompt r))
    as [e|styled] eqn:Hs.
  { intros [= -> _]. now apply apply_style_error in Hs. }
  rewrite generate_run. cbn zeta. fold (id_batch r).
  destruct (id_batch r) as [|face faces] eqn:Hfaces.
  { intros [= <- _]. right; right; left. now split. }
  destruct (start_merge_step (style_strength_ratio r) (num_steps r))
    as [e|merge] eqn:Hm.
  { intros [= -> _]. apply start_merge_step_error in Hm as [Hm|Hm].
    - discriminate.
    - injection Hm as ->. now right; right; right. }
  unfold save_outputs. intros Hsave.
  match type of Hsave with
  | ?run = _ => destruct run as [[e|paths] w''] eqn:Hrun
  end; [|discriminate].
  injection Hsave as -> _.
  apply save_loop_error in Hrun. discriminate.
Qed.

End Failures.

(** ** Before the images are loaded *)

Section Checks.

Context {Image Embedding : Type} {self : Predictor Image Embedding}.

Implicit Types (w : World Image Embedding) (r : Request).

(** X1: With [rmtree] failing only on a missing folder and [makedirs] only on
    an existing one, clearing the output folder never fails: [makedirs] is
    called with [exist_ok=False], yet never meets a folder, because an
    existing one has just been removed.  The folder is left existing and
    empty, the random state is not touched, and [rmtree] is called exactly
    when the folder was there. *)
Theorem output_folder_reset w :
  exists w',
    prepare_output_folder w = (inr tt, w') /\
    outputs w' = Some ∅ /\
    entropy w' = entropy w /\
    trace w' = trace w ++
      match outputs w with
      | Some _ => [Rmtree; Makedirs]
      | None => [Makedirs]
      end.
Proof.
  exists (prepared w). rewrite prepare_output_folder_run.
  unfold prepared, folder_events. cbn.
  destruct (outputs w); auto.
Qed.

(** X2: A seed that is given is used as it is and no random number is drawn;
    without one, the seed drawn lies between 0 and [MAX_SEED].  So a seed
    within the declared bounds gives a seed within these bounds. *)
Theorem seed_within_bounds (s : option Z) w :
  (forall given, s = Some given -> 0 <= given <= MAX_SEED) ->
  exists used w',
    choose_seed s w = (inr used, w') /\
    0 <= used <= MAX_SEED /\
    (forall given, s = Some given -> used = given /\ w' = w) /\
    outputs w' = outputs w /\ trace w' = trace w.
Proof.
  intros Hs. exists (chosen_seed s w), (seeded s w).
  rewrite choose_seed_run. split; [reflexivity|].
  destruct s as [given|]; cbn.
  - split; [apply Hs; reflexivity|]. split; [|auto].
    intros ? [= <-]. auto.
  - split; [|split; [discriminate | auto]].
    unfold MAX_SEED.
    pose proof (Z.mod_pos_bound (entropy w) (2147483647 + 1)). lia.
Qed.

(** The prompt check by the number of trigger tokens. *)
Lemma check_prompt_count prompt :
  check_prompt prompt =
  if PyList.count image_token_id (encode prompt) =? 0
  then inl (ValueError missing_trigger_msg)
  else if 1 <? PyList.count image_token_id (encode prompt)
       then inl (ValueError multiple_trigger_msg)
       else inr tt.
Proof.
  unfold check_prompt.
  destruct (PyList.contains image_token_id (encode prompt)) eqn:Hc; cbn.
  - apply PyListFacts.contains_count in Hc.
    destruct (Z.eqb_spec (PyList.count image_token_id (encode prompt)) 0);
      [lia | reflexivity].
  - apply PyListFacts.contains_false_count in Hc. now rewrite Hc.
Qed.

(** Messages of the four [ValueError]s are pairwise different. *)
Lemma trigger_msgs_differ :
  missing_trigger_msg <> multiple_trigger_msg /\
  missing_trigger_msg <> negative_trigger_msg /\
  multiple_trigger_msg <> negative_trigger_msg /\
  missing_trigger_msg <> no_face_msg /\
  multiple_trigger_msg <> no_face_msg /\
  negative_trigger_msg <> no_face_msg.
Proof. repeat split; intros H; vm_compute in H; discriminate H. Qed.

Lemma nan_msg_differs :
  "cannot convert float NaN to integer" <> negative_trigger_msg /\
  "cannot convert float NaN to integer" <> no_face_msg.
Proof. split; intros H; vm_compute in H; discriminate H. Qed.

(** X3: The prompt passes exactly when its encoding holds the trigger token
    once.  Without the token [predict] raises the "Cannot find" error, with
    more than one the "multiple" error; either way it stops with the output
    folder empty and only the folder calls made: no image is loaded and no
    model is run. *)
Theorem prompt_trigger_check r w :
  (check_prompt (prompt r) = inr tt <->
   PyList.count image_token_id (encode (prompt r)) = 1) /\
  (PyList.count image_token_id (encode (prompt r)) = 0 ->
   predict r w = (inl (ValueError missing_trigger_msg), checked_in r w)) /\
  (1 < PyList.count image_token_id (encode (prompt r)) ->
   predict r w = (inl (ValueError multiple_trigger_msg), checked_in r w)) /\
  outputs (checked_in r w) = Some ∅ /\
  trace (checked_in r w) = trace w ++ folder_events w.
Proof.
  pose proof (PyListFacts.count_nonneg image_token_id (encode (prompt r))) as Hc.
  split; [|split; [|split; [|split]]].
  - rewrite check_prompt_count.
    destruct (Z.eqb_spec (PyList.count image_token_id (encode (prompt r))) 0);
      [split; [discriminate | lia]|].
    destruct (Z.ltb_spec 1 (PyList.count image_token_id (encode (prompt r))));
      [split; [discriminate | lia]|].
    split; [lia | reflexivity].
  - intros H0. rewrite predict_run, check_prompt_count, H0. reflexivity.
  - intros H1. rewrite predict_run, check_prompt_count.
    destruct (Z.eqb_spec (PyList.count image_token_id (encode (prompt r))) 0);
      [lia|].
    destruct (Z.ltb_spec 1 (PyList.count image_token_id (encode (prompt r))));
      [reflexivity | lia].
  - apply checked_in_outputs.
  - apply checked_in_trace.
Qed.

(** X4: The negative prompt is refused exactly when it is non-empty and its
    encoding holds the trigger token; an empty one is not even tokenized.
    When the prompt itself passes, [predict] then raises the "negative
    prompt" error with the output folder empty and only the folder calls
    made.  A negative prompt that is empty or free of the token never leads
    to this error, whatever else the request holds. *)
Theorem negative_prompt_check r w :
  (check_negative_prompt (negative_prompt r) = inr tt <->
   negative_prompt r = "" \/
   PyList.contains image_token_id (encode (negative_prompt r)) = false) /\
  (check_prompt (prompt r) = inr tt ->
   negative_prompt r <> "" ->
   PyList.contains image_token_id (encode (negative_prompt r)) = true ->
   predict r w = (inl (ValueError negative_trigger_msg), checked_in r w)) /\
  (negative_prompt r = "" \/
   PyList.contains image_token_id (encode (negative_prompt r)) = false ->
   fst (predict r w) <> inl (ValueError negative_trigger_msg)).
Proof.
  assert (check_negative_prompt (negative_prompt r) = inr tt <->
          negative_prompt r = "" \/
          PyList.contains image_token_id (encode (negative_prompt r)) = false)
    as Hiff.
  { unfold check_negative_prompt.
    destruct (negative_prompt r) as [|c s]; cbn; [tauto|].
    destruct (PyList.contains image_token_id (encode (String c s))).
    - split; [discriminate | intros [?|?]; discriminate].
    - tauto. }
  split; [exact Hiff|]. split.
  - intros Hp Hne Hc. rewrite predict_run, Hp, after_prompt_check_run.
    unfold check_negative_prompt.
    destruct (negative_prompt r) as [|c s]; [contradiction|]. cbn.
    now rewrite Hc.
  - intros Hfree Hraise. apply Hiff in Hfree.
    destruct (predict r w) as [res w'] eqn:Hrun. cbn in Hraise. subst res.
    destruct trigger_msgs_differ as (_ & H1 & H2 & _ & _ & H3).
    destruct nan_msg_differs as [H4 _].
    apply predict_ValueError in Hrun as [Hrun|[[_ Hrun]|[[Hrun _]|Hrun]]].
    + apply check_prompt_error in Hrun as [[= Hrun]|[= Hrun]]; congruence.
    + congruence.
    + contradiction.
    + congruence.
Qed.

(** X5: An aspect ratio that is not a key of the table is a [KeyError] on its
    name, raised after both prompt checks and before any image is loaded. *)
Theorem unknown_aspect_ratio r w :
  check_prompt (prompt r) = inr tt ->
  check_negative_prompt (negative_prompt r) = inr tt ->
  aspect_ratios !! aspect_ratio_name r = None ->
  predict r w = (inl (KeyError (aspect_ratio_name r)), checked_in r w) /\
  trace (checked_in r w) = trace w ++ folder_events w.
Proof.
  intros Hp Hn Hd. split; [|apply checked_in_trace].
  rewrite predict_run, Hp, after_prompt_check_run, Hn.
  unfold output_dimensions. now rewrite Hd.
Qed.

End Checks.

(** ** Loading the images and embedding the faces *)

Section Faces.

Context {Image Embedding : Type} {self : Predictor Image Embedding}.

Implicit Types (w : World Image Embedding) (r : Request).

(** X6: The loading loop raises nothing of its own and loads exactly the
    inputs that are not
    [None], in the order of the parameters: at most four images, the first
    of them the required one when it is given.  It touches neither the
    output folder nor the random state. *)
Theorem input_images_loaded r w :
  exists w',
    load_input_images r w
    = (inr (load_image <$>
              omap id [input_image r; input_image2 r; input_image3 r;
                       input_image4 r]), w') /\
    trace w' = trace w ++
      (LoadImage <$>
         omap id [input_image r; input_image2 r; input_image3 r;
                  input_image4 r]) /\
    outputs w' = outputs w /\ entropy w' = entropy w /\
    (length (loaded r) <= 4)%nat /\
    (forall p, input_image r = Some p -> head (loaded r) = Some (load_image p)) /\
    (loaded r = [] <->
     input_image r = None /\ input_image2 r = None /\
     input_image3 r = None /\ input_image4 r = None).
Proof.
  exists (add_trace w (LoadImage <$> supplied r)).
  rewrite load_input_images_run. unfold loaded, supplied.
  split; [reflexivity|]. split; [reflexivity|].
  split; [reflexivity|]. split; [reflexivity|].
  destruct (input_image r), (input_image2 r), (input_image3 r),
    (input_image4 r); cbn; (split; [lia|]);
    (split; [intros ? [= <-]; reflexivity || discriminate | ]);
    (split; [discriminate || auto | intros (? & ? & ? & ?); discriminate || auto]).
Qed.

Lemma first_face_embeds_cons img (images : list Image) :
  first_face_embeds (img :: images)
  = take 1 (analyze_faces img) ++ first_face_embeds images.
Proof.
  unfold first_face_embeds. cbn. now destruct (analyze_faces img).
Qed.

Lemma first_face_embeds_facts (images : list Image) :
  first_face_embeds images
  = mjoin ((fun img => take 1 (analyze_faces img)) <$> images) /\
  length (first_face_embeds images) = length (with_face images) /\
  (first_face_embeds images = [] <->
   Forall (fun img => analyze_faces img = []) images).
Proof.
  induction images as [|img images (IH1 & IH2 & IH3)].
  - cbn. split; [reflexivity|]. split; [reflexivity|].
    split; [intros _; apply Forall_nil_2 | reflexivity].
  - rewrite first_face_embeds_cons. split; [|split].
    + rewrite fmap_cons. cbn [mjoin list_join]. f_equal. exact IH1.
    + unfold with_face. rewrite filter_cons, length_app, IH2.
      destruct (analyze_faces img) as [|face faces]; cbn.
      * rewrite decide_False by lia. reflexivity.
      * rewrite decide_True by lia. reflexivity.
    + rewrite Forall_cons. rewrite <- IH3.
      destruct (analyze_faces img) as [|face faces]; cbn.
      * tauto.
      * split; [discriminate | intros [? _]; discriminate].
Qed.

(** X7: The embedding loop raises nothing of its own: [faces[0]] is read only
    where a face was found.  Every image with a face gives one embedding, that of its first
    face, whatever the number of faces on it, and an image without a face
    gives none; the list is empty exactly when no image has a face. *)
Theorem first_face_of_each_image (images : list Image) w :
  exists w',
    collect_id_embeds images w = (inr (first_face_embeds images), w') /\
    trace w' = trace w ++ (AnalyzeFaces <$> images) /\
    outputs w' = outputs w /\
    first_face_embeds images
    = mjoin ((fun img => take 1 (analyze_faces img)) <$> images) /\
    length (first_face_embeds images) = length (with_face images) /\
    (first_face_embeds images = [] <->
     Forall (fun img => analyze_faces img = []) images).
Proof.
  exists (add_trace w (AnalyzeFaces <$> images)).
  rewrite collect_id_embeds_run.
  split; [reflexivity|]. split; [reflexivity|]. split; [reflexivity|].
  apply first_face_embeds_facts.
Qed.

(** X8: When the checks before it pass, the request fails with "No face
    detected" if no loaded image has a face: the images have been loaded and
    analyzed, the pipeline has not been called and the output folder is
    empty.  If some loaded image has a face, this error is not raised,
    whatever else happens. *)
Theorem no_face_error r w dims styled :
  checks_pass r dims styled ->
  (Forall (fun img => analyze_faces img = []) (loaded r) ->
   predict r w
   = (inl (ValueError no_face_msg),
      add_trace (checked_in r w) (embedding_events r)) /\
   outputs (add_trace (checked_in r w) (embedding_events r)) = Some ∅) /\
  (~ Forall (fun img => analyze_faces img = []) (loaded r) ->
   fst (predict r w) <> inl (ValueError no_face_msg)).
Proof.
  intros (Hp & Hn & Hd & Hs).
  destruct (first_face_embeds_facts (loaded r)) as (_ & _ & Hempty).
  split.
  - intros Hnone. apply Hempty in Hnone. split; [|apply checked_in_outputs].
    rewrite predict_run, Hp, after_prompt_check_run, Hn, Hd, Hs, generate_run.
    cbn zeta. rewrite Hnone, add_trace_app. reflexivity.
  - intros Hsome Hraise. apply Hsome, Hempty.
    destruct (predict r w) as [res w'] eqn:Hrun. cbn in Hraise. subst res.
    destruct trigger_msgs_differ as (_ & _ & _ & H1 & H2 & H3).
    destruct nan_msg_differs as [_ H4].
    apply predict_ValueError in Hrun as [Hrun|[[_ Hrun]|[[_ Hrun]|Hrun]]].
    + congruence.
    + congruence.
    + exact Hrun.
    + congruence.
Qed.

End Faces.

(** ** The merge step for whole ratios *)

Module MergeStepTable.

Lemma whole_ratio_table :
  forallb (fun k =>
    forallb (fun n =>
      match PyFloat.of_int (Z.of_nat k) with
      | inl _ => false
      | inr x =>
          match start_merge_step x (Z.of_nat n) with
          | inl _ => false
          | inr s =>
              s =? (if (Z.of_nat k =? 29) && (Z.of_nat n =? 100) then 28
                    else exact_merge_step (Z.of_nat k) (Z.of_nat n))
          end
      end) (seq 1 100)) (seq 15 36) = true.
Proof. vm_compute. reflexivity. Qed.

(** X9: For a whole ratio between 15 and 50 and a step count between 1 and 100
    the floating-point computation never fails and gives the exact capped
    fraction [min(30, floor(ratio * steps / 100))], but for one pair: a
    ratio of 29 with 100 steps gives 28 and not 29.  The merge step is
    never negative and always below the step count. *)
Theorem start_merge_step_whole_ratio (k n : Z) :
  15 <= k <= 50 -> 1 <= n <= 100 ->
  exists x s,
    PyFloat.of_int k = inr x /\
    start_merge_step x n = inr s /\
    s = (if (k =? 29) && (n =? 100) then 28 else exact_merge_step k n) /\
    0 <= s <= 30 /\ s < n.
Proof.
  intros Hk Hn.
  pose proof whole_ratio_table as T.
  rewrite forallb_forall in T. specialize (T (Z.to_nat k)).
  rewrite forallb_forall in T.
  assert (In (Z.to_nat k) (seq 15 36)) as Hink by (apply in_seq; lia).
  specialize (T Hink (Z.to_nat n)).
  assert (In (Z.to_nat n) (seq 1 100)) as Hinn by (apply in_seq; lia).
  specialize (T Hinn). rewrite !Z2Nat.id in T by lia.
  destruct (PyFloat.of_int k) as [e|x]; [discriminate|].
  destruct (start_merge_step x n) as [e|s] eqn:Hs; [discriminate|].
  apply Z.eqb_eq in T. exists x, s.
  split; [reflexivity|]. split; [exact Hs|]. split; [exact T|].
  subst s. unfold exact_merge_step.
  destruct ((k =? 29) && (n =? 100)) eqn:Hkn.
  { apply andb_true_iff in Hkn as [_ Hn100]. apply Z.eqb_eq in Hn100. lia. }
  assert (0 <= k * n / 100) by (apply Z.div_pos; nia).
  assert (k * n / 100 < n) by (apply Z.div_lt_upper_bound; nia).
  lia.
Qed.

Lemma start_merge_step_whole_ratio_witness :
  exists x s,
    PyFloat.of_int 29 = inr x /\
    start_merge_step x 100 = inr s /\
    s = (if (29 =? 29) && (100 =? 100) then 28 else exact_merge_step 29 100) /\
    0 <= s <= 30 /\ s < 100.
Proof. apply (start_merge_step_whole_ratio 29 100); lia. Defined.

End MergeStepTable.

(** ** Templates with one placeholder or none *)

Module StyleTemplates.
Import PyStr PyStrFacts Pieces.

#[local] Arguments String.append !s1 s2 : simpl nomatch.

Lemma replace_free new template :
  ~ occurs placeholder template -> replace placeholder new template = template.
Proof.
  intros Hfree. rewrite Style.replace_placeholder.
  unfold placeholder in *. rewrite split_free by exact Hfree. reflexivity.
Qed.

Lemma replace_once new before after :
  ~ occurs placeholder before -> ~ occurs placeholder after ->
  replace placeholder new (before +:+ placeholder +:+ after)
  = before +:+ new +:+ after.
Proof.
  intros Hb Ha. rewrite Style.replace_placeholder.
  unfold placeholder in *.
  rewrite split_piece by (exact Hb || apply placeholder_border_free).
  rewrite split_free by exact Ha. reflexivity.
Qed.

(** X10: With the default style in the table, a known style whose positive
    template holds the placeholder once, between [before] and [after],
    gives [before], the prompt and [after] in a row; a template without the
    placeholder is returned as it is and the prompt of the user is
    dropped.  The prompt is not scanned again: a placeholder inside it
    stays. *)
Theorem apply_style_templates (styles : gmap string (string * string))
    (style_name positive negative template n : string) :
  is_Some (styles !! DEFAULT_STYLE_NAME) ->
  styles !! style_name = Some (template, n) ->
  (~ occurs placeholder template ->
   apply_style styles style_name positive negative
   = inr (template, n +:+ " " +:+ negative)) /\
  (forall before after,
     template = before +:+ placeholder +:+ after ->
     ~ occurs placeholder before -> ~ occurs placeholder after ->
     apply_style styles style_name positive negative
     = inr (before +:+ positive +:+ after, n +:+ " " +:+ negative)).
Proof.
  intros [dflt Hd] Hs.
  assert (apply_style styles style_name positive negative
          = inr (replace placeholder positive template, n +:+ " " +:+ negative))
    as -> by (unfold apply_style; now rewrite Hd, Hs).
  split.
  - intros Hfree. now rewrite replace_free.
  - intros before after -> Hb Ha. now rewrite replace_once.
Qed.

Lemma apply_style_templates_witness :
  (~ occurs placeholder "cinematic photo {prompt} . 35mm photograph" ->
   apply_style Demo.style_table DEFAULT_STYLE_NAME "a {prompt} img" "blurry"
   = inr ("cinematic photo {prompt} . 35mm photograph",
          "drawing, painting" +:+ " " +:+ "blurry")) /\
  (forall before after,
     "cinematic photo {prompt} . 35mm photograph"
     = before +:+ placeholder +:+ after ->
     ~ occurs placeholder before -> ~ occurs placeholder after ->
     apply_style Demo.style_table DEFAULT_STYLE_NAME "a {prompt} img" "blurry"
     = inr (before +:+ "a {prompt} img" +:+ after,
            "drawing, painting" +:+ " " +:+ "blurry")).
Proof.
  apply (apply_style_templates Demo.style_table DEFAULT_STYLE_NAME
           "a {prompt} img" "blurry"
           "cinematic photo {prompt} . 35mm photograph" "drawing, painting").
  - eexists. vm_compute. reflexivity.
  - vm_compute. reflexivity.
Defined.

Example apply_style_prompt_with_placeholder :
  apply_style Demo.style_table DEFAULT_STYLE_NAME "a {prompt} img" "blurry"
  = inr ("cinematic photo a {prompt} img . 35mm photograph",
         "drawing, painting blurry").
Proof. vm_compute. reflexivity. Qed.

End StyleTemplates.

(** ** What the saving loop leaves in the folder *)

Section Folder.

Context {Image : Type}.

Implicit Types (images : list Image) (l : list (nat * Image)).

Lemma string_app_inj_r a b t : a +:+ t = b +:+ t -> a = b.
Proof.
  revert b. induction a as [|x a IH]; intros [|y b] H.
  - reflexivity.
  - apply (f_equal String.length) in H.
    rewrite (Pieces.length_app (String y b)) in H.
    change ("" +:+ t) with t in H. cbn in H. lia.
  - apply (f_equal String.length) in H.
    rewrite (Pieces.length_app (String x a)) in H.
    change ("" +:+ t) with t in H. cbn in H. lia.
  - change (String x (a +:+ t) = String y (b +:+ t)) in H.
    injection H as -> H. f_equal. now apply IH.
Qed.

(** Different indices give different file names and paths. *)
Lemma image_name_inj i j : image_name i = image_name j -> i = j.
Proof.
  unfold image_name. intros H.
  apply (inj (String.app "image_")) in H.
  apply string_app_inj_r in H.
  now apply (inj pretty) in H.
Qed.

Lemma output_path_inj i j : output_path i = output_path j -> i = j.
Proof.
  unfold output_path. intros H.
  apply (inj (String.app output_folder)) in H.
  apply (inj (String.app "/")) in H.
  now apply image_name_inj.
Qed.

Lemma enumerate_from_fst i images :
  fst <$> enumerate_from i images = seq i (length images).
Proof.
  unfold enumerate_from. apply fst_zip. now rewrite length_seq.
Qed.

Lemma elem_of_enumerate_from i j img images :
  (j, img) ∈ enumerate_from i images <->
  exists k, j = (i + k)%nat /\ images !! k = Some img.
Proof.
  unfold enumerate_from. rewrite list_elem_of_lookup. split.
  - intros [k Hk]. apply lookup_zip_Some in Hk as [Hseq Himg].
    apply lookup_seq in Hseq as [-> _]. eauto.
  - intros (k & -> & Himg). exists k. apply lookup_zip_Some. split; [|exact Himg].
    apply lookup_seq. split; [reflexivity|]. now apply lookup_lt_Some in Himg.
Qed.

Lemma elem_of_enumerate j img images :
  (j, img) ∈ enumerate_from 0 images <-> images !! j = Some img.
Proof.
  rewrite elem_of_enumerate_from. split.
  - now intros (k & -> & Himg).
  - intros Himg. exists j. auto.
Qed.

Lemma kept_none images : kept None images = enumerate_from 0 images.
Proof.
  unfold kept, kept_from. generalize (enumerate_from 0 images) as l.
  induction l as [|p l IH]; [reflexivity|].
  rewrite filter_cons, decide_True by reflexivity. now rewrite IH.
Qed.

Lemma elem_of_kept flags j img images :
  (j, img) ∈ kept (Some flags) images <->
  images !! j = Some img /\ flags !! j = Some false.
Proof.
  unfold kept, kept_from. rewrite list_elem_of_filter, elem_of_enumerate.
  unfold passes. cbn. destruct (flags !! j) as [[|]|]; cbn; split; intros [? ?];
    split; auto; discriminate.
Qed.

Lemma kept_from_fst flags images :
  forall i,
    fst <$> kept_from (Some flags) i images
    = filter (fun j => flags !! j = Some false) (seq i (length images)).
Proof.
  induction images as [|img images IH]; intros i; [reflexivity|].
  rewrite kept_from_cons, fmap_app, IH. cbn [length seq].
  rewrite filter_cons. unfold passes.
  destruct (flags !! i) as [[|]|]; cbn.
  - rewrite decide_False by discriminate. reflexivity.
  - rewrite decide_True by reflexivity. reflexivity.
  - rewrite decide_False by discriminate. reflexivity.
Qed.

Lemma kept_fst flags images :
  fst <$> kept (Some flags) images = unflagged flags (length images).
Proof. apply kept_from_fst. Qed.

Lemma kept_sublist flags images :
  kept flags images `sublist_of` enumerate_from 0 images.
Proof. apply sublist_filter. Qed.

(** The pairs saved carry distinct indices. *)
Lemma sublist_enumerate_NoDup l i images :
  l `sublist_of` enumerate_from i images -> NoDup (fst <$> l).
Proof.
  intros Hsub. apply (sublist_NoDup _ (fst <$> enumerate_from i images)).
  - rewrite enumerate_from_fst. apply NoDup_seq.
  - now apply fmap_sublist.
Qed.

Lemma save_all_cons (files : gmap string Image) p l :
  save_all files (p :: l) = save_all (<[image_name (fst p) := snd p]> files) l.
Proof. reflexivity. Qed.

(** A file of the folder was there before or has been saved. *)
Lemma save_all_lookup_inv l : forall (files : gmap string Image) name img,
  save_all files l !! name = Some img ->
  files !! name = Some img \/ exists i, name = image_name i /\ (i, img) ∈ l.
Proof.
  induction l as [|[j im] l IH]; intros files name img H; [now left|].
  rewrite save_all_cons in H. apply IH in H as [H|(i & -> & Hin)].
  - cbn in H. apply lookup_insert_Some in H as [[<- <-]|[_ H]].
    + right. exists j. split; [reflexivity | apply list_elem_of_here].
    + now left.
  - right. exists i. split; [reflexivity | now apply list_elem_of_further].
Qed.

Lemma save_all_lookup_fresh l : forall (files : gmap string Image) i,
  i ∉ fst <$> l ->
  save_all files l !! image_name i = files !! image_name i.
Proof.
  induction l as [|[j im] l IH]; intros files i Hi; [reflexivity|].
  rewrite save_all_cons. cbn in *. apply not_elem_of_cons in Hi as [Hij Hi].
  rewrite IH by exact Hi. apply lookup_insert_ne.
  intros H. apply image_name_inj in H. congruence.
Qed.

(** With distinct indices, every pair saved is in the folder. *)
Lemma save_all_lookup l : forall (files : gmap string Image) i img,
  NoDup (fst <$> l) -> (i, img) ∈ l ->
  save_all files l !! image_name i = Some img.
Proof.
  induction l as [|[j im] l IH]; intros files i img Hnd Hin.
  - now apply elem_of_nil in Hin.
  - rewrite save_all_cons. cbn in *. apply NoDup_cons in Hnd as [Hj Hnd].
    apply elem_of_cons in Hin as [[= -> ->]|Hin].
    + rewrite save_all_lookup_fresh by exact Hj. apply lookup_insert_eq.
    + now apply IH.
Qed.

End Folder.

(** ** From the pipeline to the returned paths *)

Section Generation.

Context {Image Embedding : Type} {self : Predictor Image Embedding}.

Implicit Types (w : World Image Embedding) (r : Request).

Lemma for_enumerate_app {A B} (body : nat -> A -> B -> M Image Embedding B)
    (l1 l2 : list A) :
  forall i acc w,
    for_enumerate body i (l1 ++ l2) acc w =
    match for_enumerate body i l1 acc w with
    | (inl e, w') => (inl e, w')
    | (inr acc', w') => for_enumerate body (i + length l1) l2 acc' w'
    end.
Proof.
  induction l1 as [|x l1 IH]; intros i acc w.
  - cbn. now rewrite Nat.add_0_r.
  - cbn [app]. rewrite !for_enumerate_cons.
    destruct (body i x acc w) as [[e|acc'] w']; [reflexivity|].
    rewrite IH. cbn. now rewrite Nat.add_succ_r.
Qed.

(** The saving loop leaves the random state alone. *)
Lemma save_body_entropy disable has_nsfw_content i (img : Image) acc w :
  entropy (snd (save_body disable has_nsfw_content i img acc w)) = entropy w.
Proof.
  unfold save_body. run_monad.
  destruct disable; cbn.
  - destruct (outputs w); reflexivity.
  - destruct has_nsfw_content as [flags|]; cbn; [|reflexivity].
    destruct (flags !! i) as [[|]|]; cbn; try reflexivity.
    destruct (outputs w); reflexivity.
Qed.

Lemma save_loop_entropy disable has_nsfw_content (images : list Image) :
  forall i acc w,
    entropy (snd (for_enumerate (save_body disable has_nsfw_content)
                    i images acc w)) = entropy w.
Proof.
  induction images as [|img images IH]; intros i acc w; [reflexivity|].
  rewrite for_enumerate_cons.
  pose proof (save_body_entropy disable has_nsfw_content i img acc w) as Hb.
  destruct (save_body disable has_nsfw_content i img acc w) as [[e|acc'] w'].
  - exact Hb.
  - rewrite IH. exact Hb.
Qed.

(** With the folder in place, the loop can only fail on a missing flag. *)
Lemma save_loop_failure disable flags (images : list Image) :
  forall i acc w files e w',
    outputs w = Some files ->
    for_enumerate (save_body disable (if disable then None else Some flags))
      i images acc w = (inl e, w') ->
    e = IndexError /\ disable = false /\ (length flags < i + length images)%nat.
Proof.
  induction images as [|img images IH]; intros i acc w files e w' Hout;
    [discriminate|].
  rewrite for_enumerate_cons.
  destruct (save_body_outcome disable (if disable then None else Some flags)
              i img acc w files Hout) as (l & _ & _ & Hfiles & _).
  destruct disable.
  - rewrite (save_body_disabled _ _ _ _ _ files Hout) in *.
    intros Hrun. eapply IH in Hrun; [|reflexivity].
    destruct Hrun as (_ & ? & _). discriminate.
  - destruct (flags !! i) as [[|]|] eqn:Hb.
    + rewrite (save_body_flagged _ _ _ _ _ Hb).
      intros Hrun. eapply IH in Hrun; [|exact Hout].
      destruct Hrun as (-> & _ & Hlen). cbn. split; [|split]; auto; lia.
    + rewrite (save_body_unflagged _ _ _ _ _ files Hb Hout).
      intros Hrun. eapply IH in Hrun; [|reflexivity].
      destruct Hrun as (-> & _ & Hlen). cbn. split; [|split]; auto; lia.
    + rewrite (save_body_unreadable _ _ _ _ _ Hb). intros [= <- _].
      apply lookup_ge_None in Hb. cbn. split; [|split]; auto; lia.
Qed.

Lemma merge_step_capped ratio n merge :
  start_merge_step ratio n = inr merge -> merge <= 30.
Proof.
  unfold start_merge_step. destruct (merge_fraction ratio n) as [e|s];
    [discriminate|].
  intros [= <-]. destruct (Z.ltb_spec 30 s); lia.
Qed.

(** A request is refused before generation, in the world of the checks or
    after the images have been loaded and analyzed, or it is accepted. *)
Lemma predict_refused_or_accepted r w :
  (exists e evs,
     predict r w = (inl e, add_trace (checked_in r w) evs) /\
     (evs = [] \/ evs = embedding_events r) /\
     (is_ValueError e = true \/ (exists k, e = KeyError k) \/
      e = OverflowError)) \/
  (exists dims styled merge, accepted r dims styled merge).
Proof.
  unfold accepted, checks_pass, id_batch. rewrite predict_run.
  destruct (check_prompt (prompt r)) as [e|[]] eqn:Hp.
  { left. exists e, []. rewrite add_trace_nil. split; [reflexivity|].
    split; [now left|]. left.
    apply check_prompt_error in Hp as [-> | ->]; reflexivity. }
  rewrite after_prompt_check_run.
  destruct (check_negative_prompt (negative_prompt r)) as [e|[]] eqn:Hn.
  { left. exists e, []. rewrite add_trace_nil. split; [reflexivity|].
    split; [now left|]. left.
    apply check_negative_prompt_error in Hn as (-> & _). reflexivity. }
  destruct (output_dimensions (aspect_ratio_name r)) as [e|dims] eqn:Hd.
  { left. exists e, []. rewrite add_trace_nil. split; [reflexivity|].
    split; [now left|]. right; left.
    apply output_dimensions_error in Hd. eauto. }
  destruct (apply_style styles (style_name r) (prompt r) (negative_prompt r))
    as [e|styled] eqn:Hs.
  { left. exists e, []. rewrite add_trace_nil. split; [reflexivity|].
    split; [now left|]. right; left.
    apply apply_style_error in Hs. eauto. }
  rewrite generate_run. cbn zeta.
  rewrite add_trace_app. fold (embedding_events r).
  destruct (first_face_embeds (loaded r)) as [|face faces] eqn:Hf.
  { left. exists (ValueError no_face_msg), (embedding_events r).
    split; [reflexivity|]. split; [now right|]. now left. }
  destruct (start_merge_step (style_strength_ratio r) (num_steps r))
    as [e|merge] eqn:Hm.
  { left. exists e, (embedding_events r).
    split; [reflexivity|]. split; [now right|].
    apply start_merge_step_error in Hm as [-> | ->]; auto. }
  right. exists dims, styled, merge. repeat split; congruence.
Qed.


(** X12: When [predict] raises anything but an [IndexError], it does so before
    generation: the pipeline and the safety checker have not been called,
    nothing has been saved and the output folder is empty.  The images have
    then been loaded and analyzed or not touched at all. *)
Theorem refused_before_generation r w e :
  fst (predict r w) = inl e -> e <> IndexError ->
  outputs (snd (predict r w)) = Some ∅ /\
  exists evs,
    trace (snd (predict r w)) = trace w ++ folder_events w ++ evs /\
    (evs = [] \/
     evs = (LoadImage <$> supplied r) ++ (AnalyzeFaces <$> loaded r)).
Proof.
  intros Hraise Hne.
  destruct (predict_refused_or_accepted r w)
    as [(e' & evs & Hrun & Hevs & _)|(dims & styled & merge & Hacc)].
  - rewrite Hrun. cbn. split; [apply checked_in_outputs|].
    exists evs. rewrite checked_in_trace, <- app_assoc. auto.
  - rewrite (predict_accepted r w dims styled merge Hacc) in Hraise.
    unfold save_outputs, flags_for in Hraise.
    match type of Hraise with
    | fst ?run = _ => destruct run as [res w'] eqn:Hrun
    end.
    cbn in Hraise. subst res.
    eapply save_loop_failure in Hrun as (-> & _); [contradiction|].
    apply checked_in_outputs.
Qed.





(** X17: Whatever the folder held before and however the call ends, the folder
    holds afterwards only images generated and saved by this call: a file
    in it is the image of some index of the pipeline's result for this
    request.  No file of an earlier request survives, and a refused request
    leaves the folder empty. *)
Theorem output_folder_holds_this_run r w :
  exists files,
    outputs (snd (predict r w)) = Some files /\
    forall name img,
      files !! name = Some img ->
      exists dims styled merge i,
        accepted r dims styled merge /\
        name = image_name i /\
        pipe (call_args r w dims styled merge) !! i = Some img.
Proof.
  destruct (predict_refused_or_accepted r w)
    as [(e & evs & Hrun & _)|(dims & styled & merge & Hacc)].
  - exists ∅. rewrite Hrun. cbn. split; [apply checked_in_outputs|].
    intros name img Hfile. now apply lookup_empty_Some in Hfile.
  - rewrite (predict_accepted r w dims styled merge Hacc).
    unfold save_outputs.
    match goal with
    | |- context [for_enumerate ?b 0%nat ?imgs [] ?w0] =>
        destruct (save_loop_outcome (disable_safety_checker r)
                    (flags_for r imgs) imgs 0 [] w0 ∅)
          as (l & Hsub & _ & Hfiles & _)
    end.
    { apply checked_in_outputs. }
    eexists. split; [exact Hfiles|].
    intros name img Hfile.
    apply save_all_lookup_inv in Hfile as [Hfile|(i & -> & Hin)].
    + now apply lookup_empty_Some in Hfile.
    + exists dims, styled, merge, i. split; [exact Hacc|].
      split; [reflexivity|].
      apply elem_of_enumerate. exact (elem_of_sublist _ _ _ Hin Hsub).
Qed.

(** X18: The paths [predict] returns are pairwise different; they are the paths
    of indices of generated images, by increasing index, and the folder
    holds exactly the files they name, each with the image of its index. *)
Theorem returned_paths r w paths :
  fst (predict r w) = inr paths ->
  exists dims styled merge idxs files,
    accepted r dims styled merge /\
    paths = output_path <$> idxs /\
    idxs `sublist_of`
      seq 0 (length (pipe (call_args r w dims styled merge))) /\
    NoDup paths /\
    outputs (snd (predict r w)) = Some files /\
    (forall i, i ∈ idxs ->
       is_Some (files !! image_name i) /\
       files !! image_name i = pipe (call_args r w dims styled merge) !! i) /\
    (forall name, is_Some (files !! name) ->
       exists i, i ∈ idxs /\ name = image_name i).
Proof.
  intros Hret.
  destruct (predict_refused_or_accepted r w)
    as [(e & evs & Hrun & _)|(dims & styled & merge & Hacc)].
  { rewrite Hrun in Hret. discriminate. }
  exists dims, styled, merge.
  rewrite (predict_accepted r w dims styled merge Hacc) in *.
  unfold save_outputs in *.
  match goal with
  | |- context [for_enumerate ?b 0%nat ?imgs [] ?w0] =>
      destruct (save_loop_outcome (disable_safety_checker r)
                  (flags_for r imgs) imgs 0 [] w0 ∅)
        as (l & Hsub & _ & Hfiles & Hpaths)
  end.
  { apply checked_in_outputs. }
  pose proof (sublist_enumerate_NoDup _ _ _ Hsub) as Hnd.
  exists (fst <$> l). eexists. split; [exact Hacc|].
  split; [exact (Hpaths paths Hret)|]. split; [|split; [|split; [exact Hfiles|]]].
  - rewrite <- enumerate_from_fst. now apply fmap_sublist.
  - rewrite (Hpaths paths Hret). cbn.
    apply NoDup_fmap_2_strong; [|exact Hnd].
    intros i j _ _. apply output_path_inj.
  - split.
    + intros i Hi. apply list_elem_of_fmap in Hi as ([j img] & -> & Hin).
      cbn. rewrite (save_all_lookup l ∅ j img Hnd Hin).
      split; [eauto|]. symmetry. apply elem_of_enumerate.
      exact (elem_of_sublist _ _ _ Hin Hsub).
    + intros name [img Hfile].
      apply save_all_lookup_inv in Hfile as [Hfile|(i & -> & Hin)].
      * now apply lookup_empty_Some in Hfile.
      * exists i. split; [|reflexivity].
        apply list_elem_of_fmap. exists (i, img). auto.
Qed.

(** X19: A request with a seed draws no random number; one without draws
    exactly one, for the seed. *)
Theorem randomness_only_for_seed r w :
  entropy (snd (predict r w)) =
  match seed r with
  | Some _ => entropy w
  | None => entropy w / (MAX_SEED + 1)
  end.
Proof.
  assert (entropy (checked_in r w) =
          match seed r with
          | Some _ => entropy w
          | None => entropy w / (MAX_SEED + 1)
          end) as Hent
    by (unfold checked_in, seeded; now destruct (seed r)).
  destruct (predict_refused_or_accepted r w)
    as [(e & evs & Hrun & _)|(dims & styled & merge & Hacc)].
  - rewrite Hrun. exact Hent.
  - rewrite (predict_accepted r w dims styled merge Hacc).
    unfold save_outputs. rewrite save_loop_entropy. exact Hent.
Qed.

(** A [KeyError] comes from one of the two tables. *)
Lemma predict_KeyError r w k w' :
  predict r w = (inl (KeyError k), w') ->
  aspect_ratios !! aspect_ratio_name r = None \/
  styles !! DEFAULT_STYLE_NAME = None.
Proof.
  rewrite predict_run.
  destruct (check_prompt (prompt r)) as [e|[]] eqn:Hp.
  { intros [= -> _]. apply check_prompt_error in Hp as [?|?]; discriminate. }
  rewrite after_prompt_check_run.
  destruct (check_negative_prompt (negative_prompt r)) as [e|[]] eqn:Hn.
  { intros [= -> _]. apply check_negative_prompt_error in Hn as [? _].
    discriminate. }
  unfold output_dimensions.
  destruct (aspect_ratios !! aspect_ratio_name r) as [dims|]; [|now left].
  unfold apply_style.
  destruct (styles !! DEFAULT_STYLE_NAME) as [dflt|]; [|now right].
  destruct (default dflt (styles !! style_name r)) as [p n].
  rewrite generate_run. cbn zeta.
  destruct (first_face_embeds _) as [|face faces]; [discriminate|].
  destruct (start_merge_step (style_strength_ratio r) (num_steps r))
    as [e|merge] eqn:Hm.
  { intros [= -> _]. apply start_merge_step_error in Hm as [?|?]; discriminate. }
  unfold save_outputs, flags_for. intros Hrun.
  eapply save_loop_failure in Hrun as (? & _); [discriminate|].
  apply checked_in_outputs.
Qed.

(** X20: The default style is looked up whatever the style of the request is:
    when the table lacks it, a request that passes the prompt checks and
    names a known aspect ratio fails with a [KeyError] on the default name,
    before any image is loaded, even if its own style is in the table. *)
Theorem missing_default_style r w dims :
  check_prompt (prompt r) = inr tt ->
  check_negative_prompt (negative_prompt r) = inr tt ->
  aspect_ratios !! aspect_ratio_name r = Some dims ->
  styles !! DEFAULT_STYLE_NAME = None ->
  predict r w = (inl (KeyError DEFAULT_STYLE_NAME), checked_in r w) /\
  trace (checked_in r w) = trace w ++ folder_events w.
Proof.
  intros Hp Hn Hd Hs. split; [|apply checked_in_trace].
  rewrite predict_run, Hp, after_prompt_check_run, Hn.
  unfold output_dimensions, apply_style. now rewrite Hd, Hs.
Qed.

(** X21: A request that the input declarations let through raises no
    [KeyError], as long as the style table holds the default style. *)
Theorem valid_request_no_KeyError r w k :
  valid_request styles aspect_ratios r = true ->
  is_Some (styles !! DEFAULT_STYLE_NAME) ->
  fst (predict r w) <> inl (KeyError k).
Proof.
  intros Hvalid [dflt Hdefault] Hraise.
  assert (is_Some (aspect_ratios !! aspect_ratio_name r)) as [dims Hdims].
  { unfold valid_request in Hvalid. rewrite !andb_true_iff in Hvalid.
    destruct Hvalid as (((((((((_ & Ha) & _) & _) & _) & _) & _) & _) & _) & _).
    now apply bool_decide_eq_true in Ha. }
  destruct (predict r w) as [res w'] eqn:Hrun. cbn in Hraise. subst res.
  apply predict_KeyError in Hrun as [Hrun|Hrun]; congruence.
Qed.

End Generation.

(** ** [setup] and the input declarations *)

Module SetupFacts.
Import Setup.

(** X22: Choosing the device never fails and gives ["cuda"], ["mps"] or
    ["cpu"]: ["cuda"] exactly when the probe for it answers yes, ["mps"]
    exactly when there is no CUDA, the platform is ["darwin"] and the probe
    for it answers yes, and ["cpu"] otherwise, also when a probe raises.
    The tensor type is bfloat16 exactly on ["cuda"] with bfloat16 support;
    the probe for that support can only fail [setup] on ["cuda"]. *)
Theorem setup_device_and_dtype {E : Type} (cuda : E + bool) (platform : string)
    (mps bf16 : E + bool) :
  (select_device cuda platform mps = "cuda" <-> cuda = inr true) /\
  (select_device cuda platform mps = "mps" <->
   cuda = inr false /\ platform = "darwin" /\ mps = inr true) /\
  (select_device cuda platform mps = "cpu" <->
   select_device cuda platform mps <> "cuda" /\
   select_device cuda platform mps <> "mps") /\
  (select_dtype (select_device cuda platform mps) bf16 = inr bfloat16 <->
   cuda = inr true /\ bf16 = inr true) /\
  (forall e,
     select_dtype (select_device cuda platform mps) bf16 = inl e <->
     cuda = inr true /\ bf16 = inl e).
Proof.
  unfold select_device, select_dtype.
  destruct cuda as [e1|[|]]; [| |destruct (bool_decide_reflect (platform = "darwin"));
    [destruct mps as [e2|[|]]|]];
    destruct bf16 as [e3|[|]]; vm_compute;
    repeat split; intros; try discriminate; try congruence; try tauto;
    repeat match goal with
           | H : _ /\ _ |- _ => destruct H
           end; try discriminate; try congruence.
Qed.

End SetupFacts.

(** X23: The defaults of the input declarations lie within the bounds declared
    with them: a request made of the defaults is let through as soon as its
    aspect ratio is a key of the table and the table of styles holds the
    default style. *)
Theorem default_request_valid (styles : gmap string (string * string))
    (aspect_ratios : gmap string (Z * Z)) (image : Path) (first : string) :
  valid_request styles aspect_ratios (default_request image first) = true <->
  is_Some (aspect_ratios !! first) /\ is_Some (styles !! DEFAULT_STYLE_NAME).
Proof.
  unfold valid_request, default_request. cbn.
  rewrite !andb_true_r, andb_true_iff, !bool_decide_eq_true. reflexivity.
Qed.

(** ** Runs of the concrete instance *)

Module DemoRuns.
Import Demo.

Lemma seed_within_bounds_witness :
  exists used w',
    choose_seed (Some 7) (Demo.world0) = (inr used, w') /\
    0 <= used <= MAX_SEED /\
    (forall given, Some 7 = Some given -> used = given /\ w' = Demo.world0) /\
    outputs w' = outputs Demo.world0 /\ trace w' = trace Demo.world0.
Proof.
  apply (seed_within_bounds (Some 7) Demo.world0).
  intros given [= <-]. unfold MAX_SEED. lia.
Defined.

Lemma unknown_aspect_ratio_witness :
  predict unknown_ratio world0
  = (inl (KeyError "4:3"), checked_in unknown_ratio world0) /\
  trace (checked_in unknown_ratio world0)
  = trace world0 ++ folder_events world0.
Proof.
  apply (unknown_aspect_ratio unknown_ratio world0); vm_compute; reflexivity.
Defined.

Lemma faceless_checks : checks_pass faceless dims3 styled3.
Proof. repeat split; vm_compute; reflexivity. Qed.

Lemma no_face_error_witness :
  checks_pass faceless dims3 styled3 /\
  predict faceless world0
  = (inl (ValueError no_face_msg),
     add_trace (checked_in faceless world0) (embedding_events faceless)).
Proof.
  split; [exact faceless_checks|].
  apply (proj1 (no_face_error faceless world0 dims3 styled3 faceless_checks)).
  vm_compute. repeat constructor.
Defined.

Lemma request3_accepted : accepted request3 dims3 styled3 30.
Proof.
  repeat split; try (vm_compute; reflexivity). vm_compute. discriminate.
Qed.

Lemma unchecked_accepted :
  accepted unchecked dims3 styled3 4.
Proof.
  repeat split; try (vm_compute; reflexivity). vm_compute. discriminate.
Qed.

Lemma request3_accepted_careless :
  accepted (self := careless) request3 dims3 styled3 30.
Proof.
  repeat split; try (vm_compute; reflexivity). vm_compute. discriminate.
Qed.


Lemma refused_before_generation_witness :
  fst (predict no_trigger world0) = inl (ValueError missing_trigger_msg) /\
  outputs (snd (predict no_trigger world0)) = Some ∅ /\
  exists evs,
    trace (snd (predict no_trigger world0))
    = trace world0 ++ folder_events world0 ++ evs /\
    (evs = [] \/
     evs = (LoadImage <$> supplied no_trigger)
           ++ (AnalyzeFaces <$> loaded no_trigger)).
Proof.
  split; [vm_compute; reflexivity|].
  apply (refused_before_generation no_trigger world0
           (ValueError missing_trigger_msg)).
  - vm_compute. reflexivity.
  - discriminate.
Defined.





Lemma returned_paths_witness :
  fst (predict request3 world0)
  = inr ["outputs/image_0.png"; "outputs/image_2.png"] /\
  NoDup ["outputs/image_0.png"; "outputs/image_2.png"].
Proof.
  assert (fst (predict request3 world0)
          = inr ["outputs/image_0.png"; "outputs/image_2.png"]) as Hret
    by (vm_compute; reflexivity).
  split; [exact Hret|].
  destruct (returned_paths request3 world0 _ Hret)
    as (_ & _ & _ & _ & _ & _ & _ & _ & Hnd & _).
  exact Hnd.
Defined.

Lemma missing_default_style_witness :
  styles (Predictor := styleless) !! style_name request3
  = Some ("{prompt}, again {prompt}", "quiet") /\
  predict (self := styleless) request3 world0
  = (inl (KeyError DEFAULT_STYLE_NAME), checked_in request3 world0).
Proof.
  split; [vm_compute; reflexivity|].
  apply (missing_default_style (self := styleless) request3 world0 dims3);
    vm_compute; reflexivity.
Defined.

Lemma valid_request_no_KeyError_witness :
  valid_request style_table ratio_table (request "alice.png") = true /\
  fst (predict (request "alice.png") world0) <> inl (KeyError "1:1").
Proof.
  split; [vm_compute; reflexivity|].
  apply (valid_request_no_KeyError (request "alice.png") world0 "1:1").
  - vm_compute. reflexivity.
  - eexists. vm_compute. reflexivity.
Defined.

(** The folder of [world0] held [image_7.png]; after the run it holds the
    two images that passed. *)
Example folder_after_request3 :
  outputs (snd (predict request3 world0))
  = Some (<[ "image_2.png" := [2%nat] ]> (<[ "image_0.png" := [0%nat] ]> ∅)).
Proof. vm_compute. reflexivity. Qed.

End DemoRuns.
